(** * Tales backend: the tale lifecycle and its like accounting

    A shallow embedding of the tale model ([models/Tale.js]), of the tale
    controllers ([controllers/tales.js]) and of the routes that mount them.

    - A JavaScript string is the list of its UTF-16 code units.
    - The [tales] collection is a finite map from [_id] to document.
    - A controller is a function from the request's parts and the collection
      to the new collection and the response; [Next e] stands for [next(error)].
    - [likes] is a Number that holds an integer; it is modelled in [Z],
      whose arithmetic is Number arithmetic on safe integers (below 2^53 in
      magnitude).
    - [createdAt]/[updatedAt] are maintained by Mongoose and read by no
      controller decision; they are left out of the documents.  The listings
      sort by [createdAt], which they take as the store's record of it. *)

From Stdlib Require Import ZArith NArith String Ascii Lia.
From stdpp Require Import base decidable option list sorting gmap.

Local Open Scope Z_scope.
Local Open Scope list_scope.

(** ** JavaScript strings *)

Module JS.

Abbreviation jsstring := (list N).

(** An ASCII literal as a JavaScript string. *)
Definition js (s : string) : jsstring :=
  map N_of_ascii (list_ascii_of_string s).

(** ECMAScript LineTerminator: LF, CR, LS, PS. *)
Definition isLineTerminator (c : N) : bool :=
  ((c =? 10) || (c =? 13) || (c =? 8232) || (c =? 8233))%N.

(** ECMAScript WhiteSpace: TAB, VT, FF, SP, NBSP, ZWNBSP and category Zs. *)
Definition isWhiteSpace (c : N) : bool :=
  ((c =? 9) || (c =? 11) || (c =? 12) || (c =? 32) || (c =? 160)
   || (c =? 5760) || ((8192 <=? c) && (c <=? 8202))
   || (c =? 8239) || (c =? 8287) || (c =? 12288) || (c =? 65279))%N.

(** What [\s] matches and what [trim] strips. *)
Definition isSpace (c : N) : bool := isWhiteSpace c || isLineTerminator c.

(** What [.] matches (no [s] flag). *)
Definition isDot (c : N) : bool := negb (isLineTerminator c).

Fixpoint trimStart (s : jsstring) : jsstring :=
  match s with
  | c :: s' => if isSpace c then trimStart s' else s
  | [] => []
  end.

Definition trimEnd (s : jsstring) : jsstring := rev (trimStart (rev s)).

(** [String.prototype.trim] *)
Definition trim (s : jsstring) : jsstring := trimEnd (trimStart s).

Fixpoint startsWith (s pat : jsstring) : bool :=
  match pat, s with
  | [], _ => true
  | p :: pat', c :: s' => (p =? c)%N && startsWith s' pat'
  | _ :: _, [] => false
  end.

(** [s.replace(pat, '')] for a string pattern: the first occurrence of
    [pat] is cut out; without an occurrence the string is unchanged. *)
Fixpoint replaceFirstWithEmpty (s pat : jsstring) : jsstring :=
  if startsWith s pat then drop (length pat) s
  else match s with
       | c :: s' => c :: replaceFirstWithEmpty s' pat
       | [] => []
       end.

(** Truthiness of a value that is a string or [undefined]. *)
Definition truthy (v : option jsstring) : bool :=
  match v with
  | Some (_ :: _) => true
  | _ => false
  end.

End JS.
Import JS.

(** ** The schema of [models/Tale.js] *)

Abbreviation ObjectId := N.

Record Tale := mkTale {
  title : jsstring;
  content : jsstring;
  ageRange : jsstring;
  topic : jsstring;
  author : ObjectId;
  isPublic : bool;
  likes : Z;
  likedBy : list ObjectId
}.

Definition set_likes (n : Z) (t : Tale) : Tale :=
  mkTale (title t) (content t) (ageRange t) (topic t) (author t) (isPublic t)
         n (likedBy t).

Definition set_likedBy (l : list ObjectId) (t : Tale) : Tale :=
  mkTale (title t) (content t) (ageRange t) (topic t) (author t) (isPublic t)
         (likes t) l.

Module Schema.

Inductive Validator := Required | Enum | MaxLength.

(** The options of a [String] path. *)
Record StringPath := {
  path : string;
  required : bool;
  trimmed : bool;
  maxlength : option nat;
  enum : option (list jsstring)
}.

Definition ageRanges : list jsstring :=
  [js "2-4"; js "5-7"; js "8-10"; js "11-13"].

Definition topics : list jsstring :=
  [js "adventure"; js "fantasy"; js "animals"; js "friendship"; js "nature";
   js "space"; js "science"; js "history"; js "sports"].

Definition titlePath : StringPath :=
  {| path := "title"; required := true; trimmed := true;
     maxlength := Some 100%nat; enum := None |}.
Definition contentPath : StringPath :=
  {| path := "content"; required := true; trimmed := true;
     maxlength := None; enum := None |}.
Definition ageRangePath : StringPath :=
  {| path := "ageRange"; required := true; trimmed := false;
     maxlength := None; enum := Some ageRanges |}.
Definition topicPath : StringPath :=
  {| path := "topic"; required := true; trimmed := false;
     maxlength := None; enum := Some topics |}.

(** The setters of a path, applied when a value is assigned. *)
Definition applySetters (p : StringPath) (v : jsstring) : jsstring :=
  if trimmed p then trim v else v.

Definition inList (v : jsstring) (l : list jsstring) : bool :=
  bool_decide (v ∈ l).

(** The first validator of the path that rejects the value, [required]
    first; [None] when the value passes.  [enum] and [maxlength] accept
    [undefined]. *)
Definition validatePath (p : StringPath) (v : option jsstring)
  : option Validator :=
  match v with
  | None => if required p then Some Required else None
  | Some s =>
      if required p && bool_decide (s = []) then Some Required
      else if match enum p with
              | Some values => negb (inList s values)
              | None => false
              end then Some Enum
      else if match maxlength p with
              | Some n => (n <? length s)%nat
              | None => false
              end then Some MaxLength
      else None
  end.

Definition pathError (p : StringPath) (v : option jsstring)
  : list (string * Validator) :=
  match validatePath p v with
  | Some e => [(path p, e)]
  | None => []
  end.

End Schema.
Import Schema.

(** ** Requests and responses *)

Record User := { _id : ObjectId }.

(** A JSON body whose named fields carry values of the type the schema gives
    the field of that name; [None] is a field the body does not name. *)
Record Body := {
  b_title : option jsstring;
  b_content : option jsstring;
  b_ageRange : option jsstring;
  b_topic : option jsstring;
  b_author : option ObjectId;
  b_isPublic : option bool;
  b_likes : option Z;
  b_likedBy : option (list ObjectId)
}.

Definition emptyBody : Body :=
  {| b_title := None; b_content := None; b_ageRange := None; b_topic := None;
     b_author := None; b_isPublic := None; b_likes := None;
     b_likedBy := None |}.

Inductive Error :=
| ValidationError (errors : list (string * Validator))
| VersionError
| TypeError.

Inductive Payload :=
| Message (message : string)
| Failure (message : string) (error : jsstring)
| Generated (title content ageRange topic : jsstring)
| TaleDoc (id : ObjectId) (tale : Tale)
| Deleted (message : string)
| LikeResult (liked : bool) (likes : Z)
| LikeStatus (liked : bool).

Inductive Response :=
| Json (status : N) (body : Payload)
| Next (e : Error).

Abbreviation Tales := (gmap N Tale).

(** ** The controllers of [controllers/tales.js] *)

(** The validation of a document: the errors of its paths, in schema order. *)
Definition validateTale (title content ageRange topic : option jsstring)
  : list (string * Validator) :=
  pathError titlePath title ++ pathError contentPath content
  ++ pathError ageRangePath ageRange ++ pathError topicPath topic.

(** The document [Tale.create] builds from the object the controller hands
    it: setters first, then the validators of every path, then the schema's
    defaults for [likes] and [likedBy]. *)
Definition TaleCreate (title content ageRange topic : option jsstring)
    (author : ObjectId) (isPublic : bool)
  : Error + Tale :=
  let title := applySetters titlePath <$> title in
  let content := applySetters contentPath <$> content in
  let ageRange := applySetters ageRangePath <$> ageRange in
  let topic := applySetters topicPath <$> topic in
  match validateTale title content ageRange topic with
  | [] =>
      inr {| title := default [] title; content := default [] content;
             ageRange := default [] ageRange; topic := default [] topic;
             author := author; isPublic := isPublic;
             likes := 0; likedBy := [] |}
  | errors => inl (ValidationError errors)
  end.

(** [createTale]; [newId] is the [_id] Mongoose generates for the document. *)
Definition createTale (newId : ObjectId) (user : User) (body : Body)
    (db : Tales) : Tales * Response :=
  match TaleCreate (b_title body) (b_content body) (b_ageRange body)
                   (b_topic body) (_id user)
                   (default false (b_isPublic body)) with
  | inr tale => (<[newId := tale]> db, Json 201 (TaleDoc newId tale))
  | inl error => (db, Next error)
  end.

(** The [users] collection as far as [populate('author', 'name')] reads it:
    the [name] of each user, by [_id]. *)
Abbreviation Users := (gmap N (list N)).

(** A tale whose [author] path is populated: the referenced user's
    [{_id, name}], or [null] when no user has the [_id]. *)
Record Populated := {
  p_id : ObjectId;
  p_tale : Tale;
  p_author : option (ObjectId * jsstring)
}.

Definition populate (users : Users) (entry : ObjectId * Tale) : Populated :=
  {| p_id := entry.1; p_tale := entry.2;
     p_author := (fun name => (author entry.2, name))
                   <$> users !! author entry.2 |}.

(** [getTaleById]; the route has no [protect], so [req.user] may be
    undefined.  [populate('author', 'name')] replaces the stored reference by
    the referenced user's [{_id, name}], or by [null] when no user has that
    [_id].  With [req.user] set the controller reads [tale.author._id], which
    throws on [null]; the [catch] hands the error to [next].  [TaleDoc]
    stands for the document answered, whose author is the populated one. *)
Definition getTaleById (users : Users) (id : ObjectId) (user : option User)
    (db : Tales) : Tales * Response :=
  match db !! id with
  | None => (db, Json 404 (Message "Tale not found"))
  | Some tale =>
      let populated := populate users (id, tale) in
      let isAuthor :=
        match user with
        | None => Some false
        | Some u =>
            match p_author populated with
            | Some (authorId, _) => Some (bool_decide (_id u = authorId))
            | None => None
            end
        end in
      match isAuthor with
      | None => (db, Next TypeError)
      | Some isAuthor =>
          if negb (isPublic tale) && negb isAuthor
          then (db, Json 403 (Message "Not authorized to access this tale"))
          else (db, Json 200 (TaleDoc id tale))
      end
  end.

(** The update validators [findByIdAndUpdate] runs with [runValidators]: the
    validators of the paths the update sets, after their setters. *)
Definition updateErrors (body : Body) : list (string * Validator) :=
  let check p v :=
    match v with
    | Some s => pathError p (Some (applySetters p s))
    | None => []
    end in
  check titlePath (b_title body) ++ check contentPath (b_content body)
  ++ check ageRangePath (b_ageRange body) ++ check topicPath (b_topic body).

(** The document after [$set] of every field the body names. *)
Definition applyUpdate (body : Body) (t : Tale) : Tale :=
  {| title := default (title t) (applySetters titlePath <$> b_title body);
     content := default (content t)
                        (applySetters contentPath <$> b_content body);
     ageRange := default (ageRange t) (b_ageRange body);
     topic := default (topic t) (b_topic body);
     author := default (author t) (b_author body);
     isPublic := default (isPublic t) (b_isPublic body);
     likes := default (likes t) (b_likes body);
     likedBy := default (likedBy t) (b_likedBy body) |}.

(** [updateTale] *)
Definition updateTale (id : ObjectId) (user : User) (body : Body) (db : Tales)
  : Tales * Response :=
  match db !! id with
  | None => (db, Json 404 (Message "Tale not found"))
  | Some tale =>
      if negb (bool_decide (author tale = _id user))
      then (db, Json 403 (Message "Not authorized to update this tale"))
      else
        match updateErrors body with
        | [] =>
            let tale := applyUpdate body tale in
            (<[id := tale]> db, Json 200 (TaleDoc id tale))
        | errors => (db, Next (ValidationError errors))
        end
  end.

(** [deleteTale] *)
Definition deleteTale (id : ObjectId) (user : User) (db : Tales)
  : Tales * Response :=
  match db !! id with
  | None => (db, Json 404 (Message "Tale not found"))
  | Some tale =>
      if negb (bool_decide (author tale = _id user))
      then (db, Json 403 (Message "Not authorized to delete this tale"))
      else (delete id db, Json 200 (Deleted "Tale deleted"))
  end.

(** [likedBy.indexOf(userId)]: the index of the first element equal to the
    identity, [-1] without one. *)
Fixpoint indexOf (l : list ObjectId) (userId : ObjectId) : Z :=
  match l with
  | [] => -1
  | x :: l' =>
      if (x =? userId)%N then 0
      else let i := indexOf l' userId in
           if i =? -1 then -1 else i + 1
  end.

(** [likedBy.splice(userIndex, 1)] for an index in range. *)
Definition splice1 (l : list ObjectId) (userIndex : Z) : list ObjectId :=
  take (Z.to_nat userIndex) l ++ drop (S (Z.to_nat userIndex)) l.

(** [likeTale], served with no other request between its [findById] and
    its [save()] (the requests in flight are modelled in [Concurrent]);
    [save()] validates the document, which a document stored through the
    schema passes, and is modelled by the write.  The arithmetic on [likes]
    is that of [Z], which is Number arithmetic on safe integers. *)
Definition likeTale (id : ObjectId) (user : User) (db : Tales)
  : Tales * Response :=
  match db !! id with
  | None => (db, Json 404 (Message "Tale not found"))
  | Some tale =>
      if negb (isPublic tale)
      then (db, Json 403 (Message "Cannot like a private tale"))
      else
        let userId := _id user in
        let userIndex := indexOf (likedBy tale) userId in
        if userIndex =? -1 then
          let tale := set_likes (likes tale + 1) tale in
          let tale := set_likedBy (likedBy tale ++ [userId]) tale in
          (<[id := tale]> db, Json 200 (LikeResult true (likes tale)))
        else
          let tale := set_likes (Z.max 0 (likes tale - 1)) tale in
          let tale := set_likedBy (splice1 (likedBy tale) userIndex) tale in
          (<[id := tale]> db, Json 200 (LikeResult false (likes tale)))
  end.

(** [likedBy.includes(userId)] *)
Definition includes (l : list ObjectId) (userId : ObjectId) : bool :=
  existsb (fun x => (x =? userId)%N) l.

(** [checkLikeStatus] *)
Definition checkLikeStatus (id : ObjectId) (user : User) (db : Tales)
  : Tales * Response :=
  match db !! id with
  | None => (db, Json 404 (Message "Tale not found"))
  | Some tale =>
      let userId := _id user in
      let liked := includes (likedBy tale) userId in
      (db, Json 200 (LikeStatus liked))
  end.

(** ** Regular expressions, as [String.prototype.match] runs them

    A backtracking matcher for the fragment the controllers use: anchors,
    one-character atoms, greedy and lazy stars over such an atom, one
    capturing group, alternation and concatenation.  No flag is set: [^] and
    [$] are the two ends of the input. *)

Module Regex.

Inductive regex :=
| Bol
| Eol
| Chr (c : N)
| StarGreedy (p : N -> bool)
| StarLazy (p : N -> bool)
| Group (r : regex)
| Alt (r1 r2 : regex)
| Seq (r1 r2 : regex).

(** A position in the input: the index, what is left of the input there, and
    the capture of group 1 so far. *)
Record mstate := {
  pos : nat;
  rest : jsstring;
  group1 : option jsstring
}.

Definition moveTo (st : mstate) (n : nat) (s : jsstring) : mstate :=
  {| pos := n; rest := s; group1 := group1 st |}.

(** [p*]: as many characters as possible, giving them back one by one while
    the continuation fails. *)
Fixpoint starGreedy (p : N -> bool) (st : mstate) (n : nat) (s : jsstring)
    (k : mstate -> option mstate) : option mstate :=
  match s with
  | c :: s' =>
      if p c then
        match starGreedy p st (S n) s' k with
        | Some r => Some r
        | None => k (moveTo st n s)
        end
      else k (moveTo st n s)
  | [] => k (moveTo st n s)
  end.

(** [p*?]: as few characters as possible, taking one more while the
    continuation fails. *)
Fixpoint starLazy (p : N -> bool) (st : mstate) (n : nat) (s : jsstring)
    (k : mstate -> option mstate) : option mstate :=
  match k (moveTo st n s) with
  | Some r => Some r
  | None =>
      match s with
      | c :: s' => if p c then starLazy p st (S n) s' k else None
      | [] => None
      end
  end.

Fixpoint exec (r : regex) (st : mstate) (k : mstate -> option mstate)
  : option mstate :=
  match r with
  | Bol => if bool_decide (pos st = 0%nat) then k st else None
  | Eol => match rest st with [] => k st | _ :: _ => None end
  | Chr c =>
      match rest st with
      | c' :: s' => if (c =? c')%N then k (moveTo st (S (pos st)) s') else None
      | [] => None
      end
  | StarGreedy p => starGreedy p st (pos st) (rest st) k
  | StarLazy p => starLazy p st (pos st) (rest st) k
  | Group r =>
      exec r st (fun st' =>
        k {| pos := pos st'; rest := rest st';
             group1 := Some (take (pos st' - pos st) (rest st)) |})
  | Alt r1 r2 =>
      match exec r1 st k with
      | Some res => Some res
      | None => exec r2 st k
      end
  | Seq r1 r2 => exec r1 st (fun st' => exec r2 st' k)
  end.

(** The array [match] returns: [index], [m[0]] and [m[1]]. *)
Record MatchResult := {
  index : nat;
  matched : jsstring;
  captured : option jsstring
}.

(** The match is tried at every start index in turn. *)
Fixpoint search (r : regex) (start : nat) (s : jsstring)
  : option MatchResult :=
  match exec r {| pos := start; rest := s; group1 := None |} Some with
  | Some st =>
      Some {| index := start; matched := take (pos st - start) s;
              captured := group1 st |}
  | None =>
      match s with
      | _ :: s' => search r (S start) s'
      | [] => None
      end
  end.

(** [text.match(r)] for a regular expression without the [g] flag. *)
Definition jsmatch (text : jsstring) (r : regex) : option MatchResult :=
  search r 0 text.

End Regex.
Import Regex.

(** ** [generateTale] *)

Record GenerateBody := {
  g_ageRange : option jsstring;
  g_topic : option jsstring;
  g_mainCharacter : option jsstring;
  g_setting : option jsstring;
  g_additionalDetails : option jsstring
}.

(** What [anthropic.messages.create] is called with (the sampling
    temperature, a constant, is left out). *)
Record MessageRequest := {
  model : string;
  max_tokens : N;
  system : string;
  prompt : jsstring
}.

(** What the awaited call yields: it throws an error with a message, or it
    resolves to a message whose content blocks carry these texts. *)
Inductive ApiResult :=
| ApiError (message : jsstring)
| ApiMessage (texts : list jsstring).

(** A controller that may call the external generator. *)
Inductive Proc (R : Type) :=
| Ret (r : R)
| MessagesCreate (request : MessageRequest) (k : ApiResult -> Proc R).
Arguments Ret {R} r.
Arguments MessagesCreate {R} request k.

(** Running a controller against a generator; the second component counts
    the calls made. *)
Fixpoint run {R} (p : Proc R) (generator : MessageRequest -> ApiResult)
  : R * nat :=
  match p with
  | Ret r => (r, 0%nat)
  | MessagesCreate request k =>
      let (r, n) := run (k (generator request)) generator in (r, S n)
  end.

(** [/^#\s*(.*?)(?:\n|$)/] *)
Definition headingTitle : regex :=
  Seq Bol (Seq (Chr 35) (Seq (StarGreedy isSpace)
    (Seq (Group (StarLazy isDot)) (Alt (Chr 10) Eol)))).

(** [/^(.*?)(?:\n|$)/] *)
Definition firstLineTitle : regex :=
  Seq Bol (Seq (Group (StarLazy isDot)) (Alt (Chr 10) Eol)).

Definition buildPrompt (ageRange topic : jsstring)
    (mainCharacter setting additionalDetails : option jsstring) : jsstring :=
  let prompt :=
    js "Create a children's story for ages " ++ ageRange ++ js " about "
    ++ topic ++ js "." in
  let prompt :=
    if truthy mainCharacter
    then prompt ++ js " The main character should be named "
         ++ default [] mainCharacter ++ js "."
    else prompt in
  let prompt :=
    if truthy setting
    then prompt ++ js " The story should be set in " ++ default [] setting
         ++ js "."
    else prompt in
  let prompt :=
    if truthy additionalDetails
    then prompt ++ js " Additional details: " ++ default [] additionalDetails
    else prompt in
  prompt ++ js " The story should be appropriate for the age range, engaging, and educational if possible. Include a creative title at the beginning. Format the story with clear paragraphs.".

(** The title and the content extracted from the generated text; [None] when
    the extraction throws (a match without its group). *)
Definition extractTale (generatedContent : jsstring)
  : option (jsstring * jsstring) :=
  let titleMatch :=
    match jsmatch generatedContent headingTitle with
    | Some m => Some m
    | None => jsmatch generatedContent firstLineTitle
    end in
  match titleMatch with
  | Some m =>
      match captured m with
      | Some t =>
          Some (trim t,
                trim (replaceFirstWithEmpty generatedContent (matched m)))
      | None => None
      end
  | None => Some (js "Untitled Tale", generatedContent)
  end.

Definition generationFailed (error : jsstring) : Response :=
  Json 500 (Failure "Error generating tale" error).

(** The request the controller sends to the generator. *)
Definition generateRequest (body : GenerateBody) : MessageRequest :=
  {| model := "claude-3-opus-20240229"; max_tokens := 4000;
     system := "You are a skilled children's author who creates age-appropriate, engaging, and imaginative stories for children. Your stories should have a clear beginning, middle, and end, with a positive message or lesson.";
     prompt := buildPrompt (default [] (g_ageRange body))
                           (default [] (g_topic body)) (g_mainCharacter body)
                           (g_setting body) (g_additionalDetails body) |}.

Definition generateTale (body : GenerateBody) : Proc Response :=
  if negb (truthy (g_ageRange body)) || negb (truthy (g_topic body))
  then Ret (Json 400 (Message "Age range and topic are required"))
  else
    let ageRange := default [] (g_ageRange body) in
    let topic := default [] (g_topic body) in
    MessagesCreate (generateRequest body)
      (fun response =>
         match response with
         | ApiError message => Ret (generationFailed message)
         | ApiMessage [] =>
             Ret (generationFailed
                    (js "Cannot read properties of undefined (reading 'text')"))
         | ApiMessage (generatedContent :: _) =>
             match extractTale generatedContent with
             | Some (title, content) =>
                 Ret (Json 200 (Generated title content ageRange topic))
             | None =>
                 Ret (generationFailed
                        (js "Cannot read properties of undefined (reading 'trim')"))
             end
         end).

(** ** The routes of [routes/tales.js] *)

Inductive Route :=
| PostGenerate | PostTale | GetUserTales | PatchTale | DeleteTale
| PostLike | GetLike | GetPublicTales | GetTale.

(** Whether the route runs [protect] before its controller. *)
Definition protect (r : Route) : bool :=
  match r with
  | GetPublicTales | GetTale => false
  | _ => true
  end.

(** Modelled from the spec: the error middleware that [next(error)] reaches,
    which is not among the sources.  "ValidationError (missing/invalid
    required field, enum violation) -> 400", "500 unhandled". *)
Definition errorStatus (e : Error) : N :=
  match e with
  | ValidationError _ => 400
  | VersionError | TypeError => 500
  end.

(** ** Like accounting *)

(** The number of distinct identities in [likedBy]. *)
Definition distinctCount (l : list ObjectId) : Z :=
  Z.of_nat (length (remove_dups l)).

(** [likes] counts [likedBy], which holds no identity twice. *)
Definition accounted (t : Tale) : Prop :=
  likes t = distinctCount (likedBy t) ∧ NoDup (likedBy t).

(** The collections the controllers build from the empty one when the
    requests are served one after another, each to its response before the
    next, with the update bodies drawn from [allowed]. *)
Inductive reachable (allowed : Body -> Prop) : Tales -> Prop :=
| reach_empty : reachable allowed ∅
| reach_create db newId user body :
    reachable allowed db -> db !! newId = None ->
    reachable allowed (createTale newId user body db).1
| reach_update db id user body :
    reachable allowed db -> allowed body ->
    reachable allowed (updateTale id user body db).1
| reach_delete db id user :
    reachable allowed db -> reachable allowed (deleteTale id user db).1
| reach_like db id user :
    reachable allowed db -> reachable allowed (likeTale id user db).1.

(** Bodies that name neither [likes] nor [likedBy]. *)
Definition leavesLikes (body : Body) : Prop :=
  b_likes body = None ∧ b_likedBy body = None.

(** ** Sample data and the vocabulary of the statements *)

Definition sampleTale : Tale :=
  {| title := js "The Brave Fox"; content := js "Once upon a time.";
     ageRange := js "5-7"; topic := js "animals"; author := 1;
     isPublic := true; likes := 2; likedBy := [2%N; 3%N] |}.

Definition privateTale : Tale :=
  {| title := js "The Shy Owl"; content := js "Deep in the wood.";
     ageRange := js "2-4"; topic := js "nature"; author := 1;
     isPublic := false; likes := 0; likedBy := [] |}.

Definition sampleDb : Tales := <[8%N := privateTale]> {[ 7%N := sampleTale ]}.

(** A field that is missing or carries none of the recognized values. *)
Definition unrecognized (v : option jsstring) (values : list jsstring)
  : Prop :=
  match v with
  | Some s => s ∉ values
  | None => True
  end.

Definition unknownTopicBody : Body :=
  {| b_title := Some (js "The Brave Fox");
     b_content := Some (js "Once upon a time.");
     b_ageRange := Some (js "5-7"); b_topic := Some (js "cooking");
     b_author := None; b_isPublic := None; b_likes := None;
     b_likedBy := None |}.

Definition foxBody : Body :=
  {| b_title := Some (js "The Brave Fox");
     b_content := Some (js "Once upon a time.");
     b_ageRange := Some (js "5-7"); b_topic := Some (js "animals");
     b_author := None; b_isPublic := Some true; b_likes := None;
     b_likedBy := None |}.

(** The collection after user 1 created one public tale. *)
Definition foxDb : Tales := (createTale 7 {| _id := 1 |} foxBody ∅).1.

Definition authorBody : Body :=
  {| b_title := None; b_content := None; b_ageRange := None; b_topic := None;
     b_author := Some 2%N; b_isPublic := None; b_likes := None;
     b_likedBy := None |}.

Definition titleBody : Body :=
  {| b_title := Some (js "  The Clever Fox "); b_content := None;
     b_ageRange := None; b_topic := None; b_author := None;
     b_isPublic := None; b_likes := None; b_likedBy := None |}.

Definition allAccounted (db : Tales) : Prop :=
  map_Forall (fun _ t => accounted t) db.

Definition likesBody : Body :=
  {| b_title := None; b_content := None; b_ageRange := None; b_topic := None;
     b_author := None; b_isPublic := None; b_likes := Some 5;
     b_likedBy := None |}.

Definition likedByBody : Body :=
  {| b_title := None; b_content := None; b_ageRange := None; b_topic := None;
     b_author := None; b_isPublic := None; b_likes := None;
     b_likedBy := Some [2%N] |}.

(** The collection after the author of the fresh tale put user 2 into its
    [likedBy] by an update: [likes] is still 0. *)
Definition skewedDb : Tales :=
  (updateTale 7 {| _id := 1 |} likedByBody foxDb).1.

(** The parse as the specification words it: the title is the first line
    without a leading heading marker, the body is the remainder; both
    without surrounding white space. *)
Fixpoint firstLine (text : jsstring) : jsstring :=
  match text with
  | [] => []
  | c :: text' => if (c =? 10)%N then [] else c :: firstLine text'
  end.

Fixpoint afterFirstLine (text : jsstring) : jsstring :=
  match text with
  | [] => []
  | c :: text' => if (c =? 10)%N then text' else afterFirstLine text'
  end.

Definition stripHeading (line : jsstring) : jsstring :=
  match line with
  | c :: line' => if (c =? 35)%N then line' else line
  | [] => []
  end.

Definition specTitle (text : jsstring) : jsstring :=
  trim (stripHeading (firstLine text)).

Definition specBody (text : jsstring) : jsstring :=
  trim (afterFirstLine text).

(** The first line holds no carriage return, line separator or paragraph
    separator and, when it starts with [#], has a character after it that is
    not white space. *)
Definition plainFirstLine (text : jsstring) : bool :=
  forallb isDot (firstLine text)
  && match firstLine text with
     | c :: line' =>
         if (c =? 35)%N then existsb (fun c => negb (isSpace c)) line'
         else true
     | [] => true
     end.

Definition storyBody : GenerateBody :=
  {| g_ageRange := Some (js "5-7"); g_topic := Some (js "animals");
     g_mainCharacter := Some (js "Finn"); g_setting := None;
     g_additionalDetails := None |}.

Definition headedText : jsstring :=
  js "# The Brave Fox" ++ [10%N; 10%N] ++ js "Once upon a time." ++ [10%N].

(** A text whose lines end in carriage return and line feed. *)
Definition crlfText : jsstring :=
  js "Title" ++ [13%N; 10%N] ++ js "Body".

(** A text whose first line is a bare [#]. *)
Definition bareHeadingText : jsstring :=
  js "#" ++ [10%N] ++ js "Foo" ++ [10%N] ++ js "Bar".

(** ** [likeTale] requests in flight on one tale

    Between its two awaits a [likeTale] request holds the document it read.
    [save()] sends what the request changed on that document: [likes] by
    [$set] of the value computed in memory, a [push] by [$push], a [splice]
    by [$set] of the whole array under the condition that the version key
    [__v] is the one read; every such save increments [__v]. *)

Module Concurrent.

Record Stored := { doc : Tale; version : N }.

Inductive Save :=
| SavePush (likes : Z) (userId : ObjectId)
| SaveArray (likes : Z) (likedBy : list ObjectId) (readVersion : N).

Inductive Request :=
| Received (user : User)
| Saving (changes : Save) (answer : Payload)
| Responded (response : Response).

(** [findById] resolves and the request runs up to [tale.save()]. *)
Definition load (user : User) (s : Stored) : Request :=
  let tale := doc s in
  if negb (isPublic tale)
  then Responded (Json 403 (Message "Cannot like a private tale"))
  else
    let userId := _id user in
    let userIndex := indexOf (likedBy tale) userId in
    if userIndex =? -1 then
      Saving (SavePush (likes tale + 1) userId)
             (LikeResult true (likes tale + 1))
    else
      Saving (SaveArray (Z.max 0 (likes tale - 1))
                        (splice1 (likedBy tale) userIndex) (version s))
             (LikeResult false (Z.max 0 (likes tale - 1))).

(** The store applies a save; [None] when the version condition fails. *)
Definition store (changes : Save) (s : Stored) : option Stored :=
  match changes with
  | SavePush n userId =>
      Some {| doc := set_likedBy (likedBy (doc s) ++ [userId])
                       (set_likes n (doc s));
              version := version s + 1 |}
  | SaveArray n l readVersion =>
      if (version s =? readVersion)%N
      then Some {| doc := set_likedBy l (set_likes n (doc s));
                   version := version s + 1 |}
      else None
  end.

Record State := { stored : Stored; requests : list Request }.

(** The store serves the pending operation of request [i]. *)
Definition step (i : nat) (st : State) : State :=
  match requests st !! i with
  | Some (Received user) =>
      {| stored := stored st;
         requests := <[i := load user (stored st)]> (requests st) |}
  | Some (Saving changes answer) =>
      match store changes (stored st) with
      | Some s =>
          {| stored := s;
             requests := <[i := Responded (Json 200 answer)]> (requests st) |}
      | None =>
          {| stored := stored st;
             requests := <[i := Responded (Next VersionError)]>
                           (requests st) |}
      end
  | Some (Responded _) | None => st
  end.

Definition runSchedule (schedule : list nat) (st : State) : State :=
  foldl (fun st i => step i st) st schedule.

(** The schedule that serves [n] requests one after another, from request
    [first] on. *)
Definition oneByOne (first n : nat) : list nat :=
  flat_map (fun i => [i; i]) (seq first n).

End Concurrent.

(** The sequential reference: the requests as [likeTale] answers them in
    turn. *)
Fixpoint likeAll (id : ObjectId) (users : list User) (db : Tales)
  : Tales * list Response :=
  match users with
  | [] => (db, [])
  | user :: users' =>
      let (db', response) := likeTale id user db in
      let (db'', responses) := likeAll id users' db' in
      (db'', response :: responses)
  end.

Definition freshFox : Concurrent.Stored :=
  {| Concurrent.doc :=
       mkTale (js "The Brave Fox") (js "Once upon a time.") (js "5-7")
              (js "animals") 1 true 0 [];
     Concurrent.version := 0 |}.

Definition twoLikes : Concurrent.State :=
  {| Concurrent.stored := freshFox;
     Concurrent.requests :=
       [Concurrent.Received {| _id := 2 |};
        Concurrent.Received {| _id := 3 |}] |}.

(** ** The listings of [controllers/tales.js] *)

(** [Tale.find(filter)]: the documents the filter selects, in the store's
    order. *)
Definition find (selects : Tale -> bool) (db : Tales)
  : list (ObjectId * Tale) :=
  filter (fun entry => selects entry.2 = true) (map_to_list db).

(** The order of [sort({ createdAt: -1 })]; [createdAt] is the timestamp
    Mongoose keeps for each document. *)
Definition newestFirst (createdAt : ObjectId -> N) (x y : ObjectId * Tale)
  : Prop :=
  (createdAt y.1 <= createdAt x.1)%N.

#[global] Instance newestFirst_dec createdAt x y :
  Decision (newestFirst createdAt x y) :=
  decide (createdAt y.1 <= createdAt x.1)%N.

Definition sortNewestFirst (createdAt : ObjectId -> N)
    (l : list (ObjectId * Tale)) : list (ObjectId * Tale) :=
  merge_sort (newestFirst createdAt) l.

(** The body [{ success: true, count, tales }] of a listing, answered with
    status 200. *)
Record Listing (A : Type) := {
  count : nat;
  tales : list A
}.
Arguments count {A} _.
Arguments tales {A} _.

(** [getTales] *)
Definition getTales (users : Users) (db : Tales) : Listing Populated :=
  let tales := populate users <$> find (fun _ => true) db in
  {| count := length tales; tales := tales |}.

(** [getPublicTales] *)
Definition getPublicTales (users : Users) (createdAt : ObjectId -> N)
    (db : Tales) : Listing Populated :=
  let tales :=
    populate users <$> sortNewestFirst createdAt (find isPublic db) in
  {| count := length tales; tales := tales |}.

(** [getUserTales] *)
Definition getUserTales (createdAt : ObjectId -> N) (user : User)
    (db : Tales) : Listing (ObjectId * Tale) :=
  let tales :=
    sortNewestFirst createdAt
      (find (fun tale => (author tale =? _id user)%N) db) in
  {| count := length tales; tales := tales |}.

(** ** The vocabulary of the further statements *)

(** What the schema's validators accept of a stored tale. *)
Definition schemaValid (t : Tale) : Prop :=
  title t ≠ [] ∧ (length (title t) <= 100)%nat ∧ content t ≠ []
  ∧ ageRange t ∈ ageRanges ∧ topic t ∈ topics.

(** Bodies [createTale] accepts: the four fields are there, [title] and
    [content] are not blank, the trimmed [title] has at most 100 code units,
    [ageRange] and [topic] are recognized. *)
Definition creatable (body : Body) : Prop :=
  (∃ t, b_title body = Some t ∧ trim t ≠ [] ∧ (length (trim t) <= 100)%nat)
  ∧ (∃ c, b_content body = Some c ∧ trim c ≠ [])
  ∧ (∃ a, b_ageRange body = Some a ∧ a ∈ ageRanges)
  ∧ (∃ p, b_topic body = Some p ∧ p ∈ topics).

(** Bodies whose named fields pass the update validators. *)
Definition updatable (body : Body) : Prop :=
  (∀ t, b_title body = Some t ->
        trim t ≠ [] ∧ (length (trim t) <= 100)%nat)
  ∧ (∀ c, b_content body = Some c -> trim c ≠ [])
  ∧ (∀ a, b_ageRange body = Some a -> a ∈ ageRanges)
  ∧ (∀ p, b_topic body = Some p -> p ∈ topics).

Definition publishBody : Body :=
  {| b_title := None; b_content := None; b_ageRange := None; b_topic := None;
     b_author := None; b_isPublic := Some true; b_likes := None;
     b_likedBy := None |}.

Definition draftBody : Body :=
  {| b_title := Some (js " The Shy Owl ");
     b_content := Some (js "Deep in the wood.");
     b_ageRange := Some (js "2-4"); b_topic := Some (js "nature");
     b_author := Some 9%N; b_isPublic := None; b_likes := Some 40;
     b_likedBy := Some [9%N] |}.

Definition blankTitleBody : Body :=
  {| b_title := Some (js "   "); b_content := None; b_ageRange := None;
     b_topic := None; b_author := None; b_isPublic := None; b_likes := None;
     b_likedBy := None |}.

Definition sampleUsers : Users := {[ 1%N := js "Ada" ]}.

(** [Number.isSafeInteger]: the integers on which adding or taking away one
    is exact in Number arithmetic, as it is in [Z]. *)
Definition safeInteger (n : Z) : Prop := - 2 ^ 53 < n < 2 ^ 53.

Definition duplicateBody : Body :=
  {| b_title := None; b_content := None; b_ageRange := None; b_topic := None;
     b_author := None; b_isPublic := None; b_likes := Some 2;
     b_likedBy := Some [2%N; 2%N] |}.

(** The collection after the author of the fresh public tale stored user 2
    twice in its [likedBy]. *)
Definition duplicateDb : Tales :=
  (updateTale 7 {| _id := 1 |} duplicateBody foxDb).1.

Definition danglingAuthorBody : Body :=
  {| b_title := None; b_content := None; b_ageRange := None; b_topic := None;
     b_author := Some 999%N; b_isPublic := None; b_likes := None;
     b_likedBy := None |}.

(** The collection after user 1 created a public tale and then set its
    [author] to an [_id] no user has. *)
Definition danglingDb : Tales :=
  (updateTale 7 {| _id := 1 |} danglingAuthorBody foxDb).1.

Definition sampleCreatedAt (id : ObjectId) : N := id.

(** * Properties *)

Section ListFacts.

Implicit Types (l : list N) (u : N).

Lemma indexOf_range l u : -1 <= indexOf l u < Z.of_nat (length l).
Proof.
  induction l as [|x l IH]; simpl; [lia|].
  destruct (x =? u)%N; [lia|].
  destruct (indexOf l u =? -1) eqn:E; lia.
Qed.

Lemma indexOf_absent l u : indexOf l u = -1 <-> u ∉ l.
Proof.
  induction l as [|x l IH]; simpl.
  - split; [intros _; apply not_elem_of_nil | done].
  - destruct (N.eqb_spec x u) as [->|Hne].
    + split; [lia | intros H; exfalso; apply H; left].
    + rewrite not_elem_of_cons.
      destruct (Z.eqb_spec (indexOf l u) (-1)) as [E|E].
      * split; [intros _; split; [congruence | by apply IH] | done].
      * pose proof (indexOf_range l u).
        split; [lia | intros [_ Hl]; apply IH in Hl; lia].
Qed.

(** A found index is the first position that holds the identity. *)
Lemma indexOf_found l u :
  u ∈ l ->
  ∃ l1 l2, l = l1 ++ u :: l2 ∧ (u ∉ l1) ∧ indexOf l u = Z.of_nat (length l1).
Proof.
  induction l as [|x l IH]; [by intros ?%elem_of_nil|].
  intros Hin. simpl.
  destruct (N.eqb_spec x u) as [->|Hne].
  - exists [], l. split; [done|]. split; [apply not_elem_of_nil | done].
  - apply elem_of_cons in Hin as [->|Hin]; [done|].
    destruct (IH Hin) as (l1 & l2 & -> & Hl1 & Hi).
    exists (x :: l1), l2. split; [done|].
    split; [rewrite not_elem_of_cons; split; congruence|].
    rewrite Hi. destruct (Z.eqb_spec (Z.of_nat (length l1)) (-1)); simpl; lia.
Qed.

Lemma splice1_middle (l1 l2 : list N) u :
  splice1 (l1 ++ u :: l2) (Z.of_nat (length l1)) = l1 ++ l2.
Proof.
  unfold splice1. rewrite Nat2Z.id.
  rewrite take_app_length.
  replace (S (length l1)) with (length l1 + 1)%nat by lia.
  by rewrite drop_app_add.
Qed.

Lemma includes_elem_of l u : includes l u = true <-> u ∈ l.
Proof.
  unfold includes. rewrite existsb_exists. split.
  - intros (x & Hx & ->%N.eqb_eq). by apply list_elem_of_In.
  - intros H. exists u. split; [by apply list_elem_of_In | apply N.eqb_refl].
Qed.

Lemma includes_decide l u : includes l u = bool_decide (u ∈ l).
Proof.
  destruct (includes l u) eqn:E.
  - symmetry. apply bool_decide_eq_true. by apply includes_elem_of.
  - symmetry. apply bool_decide_eq_false. intros Hin%includes_elem_of.
    congruence.
Qed.

Lemma distinctCount_NoDup l : NoDup l -> distinctCount l = Z.of_nat (length l).
Proof.
  intros H. unfold distinctCount. f_equal.
  apply Permutation_length.
  apply NoDup_Permutation; [apply NoDup_remove_dups | done |].
  intros x. apply elem_of_remove_dups.
Qed.

End ListFacts.

(** ** Toggling a like *)

Lemma likeTale_notFound (db : Tales) (id : ObjectId) (user : User) :
  db !! id = None ->
  likeTale id user db = (db, Json 404 (Message "Tale not found")).
Proof. unfold likeTale. by intros ->. Qed.

Lemma likeTale_private (db : Tales) (id : ObjectId) (user : User) tale :
  db !! id = Some tale -> isPublic tale = false ->
  likeTale id user db = (db, Json 403 (Message "Cannot like a private tale")).
Proof. unfold likeTale. by intros -> ->. Qed.

Section Likes.

Variables (db : Tales) (id : ObjectId) (tale : Tale) (user : User).
Hypothesis Hfound : db !! id = Some tale.
Hypothesis Hpublic : isPublic tale = true.

Lemma likeTale_like :
  _id user ∉ likedBy tale ->
  likeTale id user db =
    (<[id := set_likedBy (likedBy tale ++ [_id user])
               (set_likes (likes tale + 1) tale)]> db,
     Json 200 (LikeResult true (likes tale + 1))).
Proof.
  intros Hout. unfold likeTale. rewrite Hfound, Hpublic. simpl.
  apply indexOf_absent in Hout. by rewrite Hout.
Qed.

Lemma likeTale_unlike l1 l2 :
  likedBy tale = l1 ++ _id user :: l2 -> _id user ∉ l1 ->
  likeTale id user db =
    (<[id := set_likedBy (l1 ++ l2)
               (set_likes (Z.max 0 (likes tale - 1)) tale)]> db,
     Json 200 (LikeResult false (Z.max 0 (likes tale - 1)))).
Proof.
  intros Hl Hl1. unfold likeTale. rewrite Hfound, Hpublic. simpl.
  assert (Hin : _id user ∈ likedBy tale).
  { rewrite Hl. apply elem_of_app. right. left. }
  destruct (indexOf_found _ _ Hin) as (k1 & k2 & Hk & Hk1 & Hi).
  assert (k1 = l1 ∧ k2 = l2) as [-> ->].
  { rewrite Hl in Hk. clear -Hk Hk1 Hl1.
    revert k1 Hk Hk1. induction l1 as [|x l1 IH]; intros [|y k1] Hk Hk1.
    - by injection Hk as ->.
    - injection Hk as <- _. exfalso. apply Hk1. left.
    - injection Hk as -> _. exfalso. apply Hl1. left.
    - injection Hk as -> Hk. apply not_elem_of_cons in Hl1 as [_ Hl1].
      apply not_elem_of_cons in Hk1 as [_ Hk1].
      destruct (IH Hl1 k1 Hk Hk1) as [-> ->]. done. }
  rewrite Hi.
  destruct (Z.eqb_spec (Z.of_nat (length l1)) (-1)) as [E|_]; [lia|].
  simpl. rewrite Hl at 1. by rewrite splice1_middle.
Qed.

End Likes.

(** User 2 is twice in [likedBy] (stored by an update of the author).  The
    toggle of user 2 answers [liked: false], yet it has cut one entry only:
    user 2 is still in [likedBy], and [checkLikeStatus] says so. *)
Lemma likeTale_leaves_duplicate :
  (∃ tale, duplicateDb !! 7%N = Some tale ∧ isPublic tale = true
           ∧ likes tale = 2 ∧ likedBy tale = [2%N; 2%N])
  ∧ (likeTale 7 {| _id := 2 |} duplicateDb).2
    = Json 200 (LikeResult false 1)
  ∧ likedBy <$> (likeTale 7 {| _id := 2 |} duplicateDb).1 !! 7%N
    = Some [2%N]
  ∧ (checkLikeStatus 7 {| _id := 2 |}
       (likeTale 7 {| _id := 2 |} duplicateDb).1).2
    = Json 200 (LikeStatus true).
Proof.
  split; [eexists; repeat split; reflexivity|].
  split; [reflexivity|]. split; reflexivity.
Qed.

(** C2 (amended). On an existing public tale whose [likes] is a safe
    integer, [likeTale] cuts the first entry of [likedBy] that is the
    requester's identity when there is one, and sets [likes] to
    [max 0 (likes - 1)]; the identity is then out of [likedBy] exactly when
    it had no other entry, as when [likedBy] holds no identity twice.
    Otherwise it appends the identity and adds one to [likes].  No other
    field of the tale and no other tale changes, and the response carries
    [liked: false], respectively [liked: true], and the new count. *)
Theorem likeTale_toggles (db : Tales) (id : ObjectId) (tale : Tale)
    (user : User) :
  db !! id = Some tale -> isPublic tale = true -> safeInteger (likes tale) ->
  (_id user ∈ likedBy tale ->
   ∃ l1 l2,
     likedBy tale = l1 ++ _id user :: l2 ∧ (_id user ∉ l1) ∧
     likeTale id user db =
       (<[id := mkTale (title tale) (content tale) (ageRange tale)
                       (topic tale) (author tale) (isPublic tale)
                       (Z.max 0 (likes tale - 1)) (l1 ++ l2)]> db,
        Json 200 (LikeResult false (Z.max 0 (likes tale - 1)))) ∧
     (_id user ∈ l1 ++ l2 <-> _id user ∈ l2) ∧
     (NoDup (likedBy tale) -> _id user ∉ l1 ++ l2))
  ∧ (_id user ∉ likedBy tale ->
     likeTale id user db =
       (<[id := mkTale (title tale) (content tale) (ageRange tale)
                       (topic tale) (author tale) (isPublic tale)
                       (likes tale + 1) (likedBy tale ++ [_id user])]> db,
        Json 200 (LikeResult true (likes tale + 1)))).
Proof.
  intros Hfound Hpublic _. split.
  - intros Hin.
    destruct (indexOf_found _ _ Hin) as (l1 & l2 & Hl & Hl1 & _).
    exists l1, l2. split; [done|]. split; [done|]. split; [|split].
    + by rewrite (likeTale_unlike db id tale user Hfound Hpublic l1 l2).
    + rewrite elem_of_app. split; [by intros [?|?] | by right].
    + rewrite Hl. intros Hnd%NoDup_app. destruct Hnd as (_ & Hdisj & Hnd).
      apply NoDup_cons in Hnd as [Hl2 _].
      intros [H1|H2]%elem_of_app; [done | done].
  - intros Hout.
    by rewrite (likeTale_like db id tale user Hfound Hpublic Hout).
Qed.

Lemma likeTale_toggles_witness :
  sampleDb !! 7%N = Some sampleTale ∧ isPublic sampleTale = true
  ∧ safeInteger (likes sampleTale)
  ∧ likeTale 7 {| _id := 3 |} sampleDb
    = (<[7%N := mkTale (js "The Brave Fox") (js "Once upon a time.")
                       (js "5-7") (js "animals") 1 true 1 [2%N]]> sampleDb,
       Json 200 (LikeResult false 1))
  ∧ likeTale 7 {| _id := 5 |} sampleDb
    = (<[7%N := mkTale (js "The Brave Fox") (js "Once upon a time.")
                       (js "5-7") (js "animals") 1 true 3
                       [2%N; 3%N; 5%N]]> sampleDb,
       Json 200 (LikeResult true 3)).
Proof.
  assert (Hsafe : safeInteger (likes sampleTale)) by (unfold safeInteger; done).
  split; [reflexivity|]. split; [reflexivity|]. split; [exact Hsafe|].
  destruct (likeTale_toggles sampleDb 7 sampleTale {| _id := 3 |}
              eq_refl eq_refl Hsafe) as [Hin _].
  destruct (likeTale_toggles sampleDb 7 sampleTale {| _id := 5 |}
              eq_refl eq_refl Hsafe) as [_ Hout].
  split.
  - destruct Hin as (l1 & l2 & Hl & Hl1 & -> & _);
      [by apply (bool_decide_unpack _)|].
    destruct l1 as [|x l1]; [discriminate Hl|].
    injection Hl as <- Hl.
    destruct l1 as [|y l1]; [|by destruct Hl1; right; injection Hl as <-; left].
    injection Hl as <-. reflexivity.
  - rewrite Hout; [reflexivity|]. by apply (bool_decide_unpack _).
Defined.

(** C5. [likeTale] answers 404 when no tale has the id, and 403 when the
    tale is private, whoever asks (the author too); in both cases the
    collection is returned as it was. *)
Theorem likeTale_refuses (db : Tales) (id : ObjectId) (user : User) :
  (db !! id = None ->
   likeTale id user db = (db, Json 404 (Message "Tale not found")))
  ∧ (∀ tale, db !! id = Some tale -> isPublic tale = false ->
     likeTale id user db = (db, Json 403 (Message "Cannot like a private tale"))).
Proof.
  split.
  - apply likeTale_notFound.
  - intros tale. apply likeTale_private.
Qed.

Lemma likeTale_refuses_witness :
  likeTale 9 {| _id := 1 |} sampleDb
    = (sampleDb, Json 404 (Message "Tale not found"))
  ∧ likeTale 8 {| _id := 1 |} sampleDb
    = (sampleDb, Json 403 (Message "Cannot like a private tale")).
Proof.
  split.
  - apply (likeTale_refuses sampleDb 9 {| _id := 1 |}). reflexivity.
  - apply (proj2 (likeTale_refuses sampleDb 8 {| _id := 1 |}) privateTale);
      reflexivity.
Defined.

(** ** Reading a tale *)

(** With [req.user] undefined, or with an author that resolves to a user,
    [getTaleById] answers 404 when no tale has the id; 403 when the tale is
    not public and the requester is not its author; otherwise 200 with the
    record. *)
Lemma getTaleById_resolved (users : Users) (db : Tales) (id : ObjectId)
    (user : option User) :
  (db !! id = None ->
   getTaleById users id user db = (db, Json 404 (Message "Tale not found")))
  ∧ (∀ tale, db !! id = Some tale ->
     user = None ∨ is_Some (users !! author tale) ->
     (isPublic tale = false -> _id <$> user ≠ Some (author tale) ->
      getTaleById users id user db
        = (db, Json 403 (Message "Not authorized to access this tale")))
     ∧ (isPublic tale = true ∨ _id <$> user = Some (author tale) ->
        getTaleById users id user db = (db, Json 200 (TaleDoc id tale)))).
Proof.
  unfold getTaleById. split; [by intros ->|].
  intros tale -> Hresolves. cbn [populate p_author fst snd].
  destruct user as [u|]; cbn [fmap option_fmap option_map].
  - destruct Hresolves as [|[name ->]]; [done|].
    cbn [fmap option_fmap option_map]. split.
    + intros -> Hother. rewrite bool_decide_eq_false_2; [done | congruence].
    + intros [-> | Hauthor]; [done|].
      rewrite bool_decide_eq_true_2 by congruence. by rewrite andb_false_r.
  - split; [by intros -> _|]. by intros [-> | ?].
Qed.

(** Without a user for the author's [_id], every authenticated requester
    is answered by the error handler, whether the tale is public or not. *)
Lemma getTaleById_unresolved (users : Users) (db : Tales) (id : ObjectId)
    (tale : Tale) (u : User) :
  db !! id = Some tale -> users !! author tale = None ->
  getTaleById users id (Some u) db = (db, Next TypeError).
Proof.
  intros Hfound Hnone. unfold getTaleById.
  rewrite Hfound. cbn [populate p_author fst snd]. by rewrite Hnone.
Qed.

(** C6. After its author pointed the [author] of a public tale at an [_id]
    no user has, [getTaleById] hands a [TypeError] to [next] for an
    authenticated requester, where a public tale is to be returned to every
    requester; an unauthenticated requester still receives the record. *)
Theorem getTaleById_dangling_author :
  (∃ tale, danglingDb !! 7%N = Some tale ∧ isPublic tale = true
           ∧ author tale = 999%N)
  ∧ sampleUsers !! 999%N = None
  ∧ protect GetTale = false
  ∧ getTaleById sampleUsers 7 (Some {| _id := 1 |}) danglingDb
    = (danglingDb, Next TypeError)
  ∧ errorStatus TypeError = 500%N
  ∧ (∃ tale, getTaleById sampleUsers 7 None danglingDb
             = (danglingDb, Json 200 (TaleDoc 7 tale))).
Proof.
  split; [eexists; repeat split; reflexivity|].
  split; [reflexivity|]. split; [reflexivity|]. split; [reflexivity|].
  split; [reflexivity|]. eexists. reflexivity.
Qed.

(** C10. [checkLikeStatus], mounted behind [protect], looks at neither
    [isPublic] nor [author]: for an existing tale it answers 200 with whether
    the requester's identity is in [likedBy]; it answers 404 when no tale has
    the id, and never 403. *)
Theorem checkLikeStatus_unguarded (db : Tales) (id : ObjectId) (user : User) :
  protect GetLike = true
  ∧ (db !! id = None ->
     checkLikeStatus id user db = (db, Json 404 (Message "Tale not found")))
  ∧ (∀ tale, db !! id = Some tale ->
     checkLikeStatus id user db
       = (db, Json 200 (LikeStatus (bool_decide (_id user ∈ likedBy tale)))))
  ∧ (∀ body, (checkLikeStatus id user db).2 ≠ Json 403 body).
Proof.
  unfold checkLikeStatus. split; [done|]. split; [by intros ->|]. split.
  - intros tale ->. by rewrite includes_decide.
  - intros body. by destruct (db !! id).
Qed.

Lemma checkLikeStatus_unguarded_witness :
  checkLikeStatus 9 {| _id := 3 |} sampleDb
    = (sampleDb, Json 404 (Message "Tale not found"))
  ∧ checkLikeStatus 8 {| _id := 3 |} sampleDb
    = (sampleDb, Json 200 (LikeStatus false))
  ∧ checkLikeStatus 7 {| _id := 3 |} sampleDb
    = (sampleDb, Json 200 (LikeStatus true)).
Proof.
  pose proof (checkLikeStatus_unguarded sampleDb 9 {| _id := 3 |})
    as (_ & H9 & _).
  pose proof (checkLikeStatus_unguarded sampleDb 8 {| _id := 3 |})
    as (_ & _ & H8 & _).
  pose proof (checkLikeStatus_unguarded sampleDb 7 {| _id := 3 |})
    as (_ & _ & H7 & _).
  split; [apply H9; reflexivity|].
  split; [apply (H8 privateTale); reflexivity|].
  apply (H7 sampleTale); reflexivity.
Defined.

(** ** Creating a tale *)

Lemma pathError_missing (p : StringPath) :
  required p = true -> pathError p None ≠ [].
Proof. unfold pathError, validatePath. by intros ->. Qed.

Lemma pathError_unrecognized (p : StringPath) v values :
  required p = true -> trimmed p = false -> enum p = Some values ->
  unrecognized v values -> pathError p (applySetters p <$> v) ≠ [].
Proof.
  intros Hreq Htrim Henum Hv. destruct v as [s|]; simpl.
  - unfold pathError, validatePath, applySetters.
    rewrite Hreq, Htrim, Henum. simpl.
    destruct (bool_decide (s = [])); [done|].
    unfold inList. by rewrite bool_decide_eq_false_2.
  - by apply pathError_missing.
Qed.

Lemma TaleCreate_invalid title content ageRange topic author isPublic :
  let errors :=
    validateTale (applySetters titlePath <$> title)
                 (applySetters contentPath <$> content)
                 (applySetters ageRangePath <$> ageRange)
                 (applySetters topicPath <$> topic) in
  errors ≠ [] ->
  TaleCreate title content ageRange topic author isPublic
    = inl (ValidationError errors).
Proof.
  simpl. unfold TaleCreate.
  by destruct (validateTale _ _ _ _).
Qed.

(** C7. [createTale] passes a validation error to [next], which the error
    middleware answers with 400, for every body whose [topic] is not one of
    the nine topics, whose [ageRange] is not one of the four bands, or that
    lacks [title], [content], [ageRange] or [topic]; the collection is
    returned as it was. *)
Theorem createTale_rejects (newId : ObjectId) (user : User) (body : Body)
    (db : Tales) :
  length topics = 9%nat ∧ length ageRanges = 4%nat ∧
  (unrecognized (b_topic body) topics
   ∨ unrecognized (b_ageRange body) ageRanges
   ∨ b_title body = None ∨ b_content body = None
   ∨ b_ageRange body = None ∨ b_topic body = None ->
   ∃ errors,
     errors ≠ []
     ∧ createTale newId user body db = (db, Next (ValidationError errors))
     ∧ errorStatus (ValidationError errors) = 400%N).
Proof.
  split; [done|]. split; [done|]. intros Hbad.
  set (errors :=
    validateTale (applySetters titlePath <$> b_title body)
                 (applySetters contentPath <$> b_content body)
                 (applySetters ageRangePath <$> b_ageRange body)
                 (applySetters topicPath <$> b_topic body)).
  assert (Herrors : errors ≠ []).
  { unfold errors, validateTale. intros Hnil.
    apply app_eq_nil in Hnil as [Htitle Hnil].
    apply app_eq_nil in Hnil as [Hcontent Hnil].
    apply app_eq_nil in Hnil as [HageRange Htopic].
    destruct Hbad as [Hb|[Hb|[Hb|[Hb|[Hb|Hb]]]]].
    - by eapply (pathError_unrecognized topicPath), Htopic.
    - by eapply (pathError_unrecognized ageRangePath), HageRange.
    - rewrite Hb in Htitle. by eapply (pathError_missing titlePath), Htitle.
    - rewrite Hb in Hcontent.
      by eapply (pathError_missing contentPath), Hcontent.
    - rewrite Hb in HageRange.
      by eapply (pathError_missing ageRangePath), HageRange.
    - rewrite Hb in Htopic. by eapply (pathError_missing topicPath), Htopic. }
  exists errors. split; [done|]. split; [|done].
  unfold createTale. by rewrite TaleCreate_invalid.
Qed.

Lemma createTale_rejects_witness :
  createTale 9 {| _id := 1 |} unknownTopicBody sampleDb
    = (sampleDb, Next (ValidationError [("topic"%string, Enum)])).
Proof.
  destruct (createTale_rejects 9 {| _id := 1 |} unknownTopicBody sampleDb)
    as (_ & _ & Hrejects).
  destruct Hrejects as (errors & _ & Hcreate & _).
  - left. by apply (bool_decide_unpack _).
  - rewrite Hcreate. vm_compute in Hcreate. congruence.
Defined.

(** ** Updating a tale *)

(** The author of a tale updates it with a body that names [author]: the
    update is accepted and the stored author is the one the body names. *)
Lemma updateTale_reassigns_author :
  author <$> foxDb !! 7%N = Some 1%N
  ∧ (∃ tale, (updateTale 7 {| _id := 1 |} authorBody foxDb).2
             = Json 200 (TaleDoc 7 tale))
  ∧ author <$> (updateTale 7 {| _id := 1 |} authorBody foxDb).1 !! 7%N
    = Some 2%N.
Proof.
  split; [reflexivity|]. split; [|reflexivity].
  eexists. reflexivity.
Qed.

(** C4 (amended). [updateTale] with a body that does not name [author]
    leaves the stored author of the tale as it was, whether the update is
    accepted or refused. *)
Theorem updateTale_keeps_author (db : Tales) (id : ObjectId) (user : User)
    (body : Body) (tale : Tale) :
  db !! id = Some tale -> b_author body = None ->
  author <$> (updateTale id user body db).1 !! id = Some (author tale).
Proof.
  intros Hfound Hbody. unfold updateTale. rewrite Hfound.
  destruct (negb _); simpl; [by rewrite Hfound|].
  destruct (updateErrors body); simpl; [|by rewrite Hfound].
  rewrite lookup_insert_eq. simpl. by rewrite Hbody.
Qed.

Lemma updateTale_keeps_author_witness :
  (∃ tale, (updateTale 7 {| _id := 1 |} titleBody foxDb).2
           = Json 200 (TaleDoc 7 tale)
           ∧ title tale = js "The Clever Fox")
  ∧ author <$> (updateTale 7 {| _id := 1 |} titleBody foxDb).1 !! 7%N
    = Some 1%N.
Proof.
  split; [eexists; split; reflexivity|].
  exact (updateTale_keeps_author foxDb 7 {| _id := 1 |} titleBody _
           eq_refl eq_refl).
Defined.

(** ** The likes counter and [likedBy] *)

Lemma accounted_length (t : Tale) :
  accounted t -> likes t = Z.of_nat (length (likedBy t)).
Proof. intros [-> Hnd]. by apply distinctCount_NoDup. Qed.

Lemma accounted_intro (t : Tale) :
  NoDup (likedBy t) -> likes t = Z.of_nat (length (likedBy t)) -> accounted t.
Proof. intros Hnd Hlen. split; [|done]. by rewrite distinctCount_NoDup. Qed.

Lemma accounted_like (t : Tale) (u : ObjectId) :
  accounted t -> u ∉ likedBy t ->
  accounted (set_likedBy (likedBy t ++ [u]) (set_likes (likes t + 1) t)).
Proof.
  intros Hacc Hout. pose proof (accounted_length t Hacc) as Hlen.
  destruct Hacc as [_ Hnd]. apply accounted_intro; simpl.
  - apply NoDup_app. split; [done|]. split; [|apply NoDup_singleton].
    intros x Hx ->%list_elem_of_singleton. done.
  - rewrite length_app. simpl. lia.
Qed.

Lemma accounted_unlike (t : Tale) (u : ObjectId) l1 l2 :
  accounted t -> likedBy t = l1 ++ u :: l2 ->
  accounted (set_likedBy (l1 ++ l2) (set_likes (Z.max 0 (likes t - 1)) t)).
Proof.
  intros Hacc Hl. pose proof (accounted_length t Hacc) as Hlen.
  destruct Hacc as [_ Hnd]. rewrite Hl in Hnd, Hlen.
  apply accounted_intro; simpl.
  - apply NoDup_app in Hnd as (Hl1 & Hdisj & Hl2).
    apply NoDup_cons in Hl2 as [_ Hl2].
    apply NoDup_app. split; [done|]. split; [|done].
    intros x Hx1 Hx2. apply (Hdisj x Hx1). by right.
  - rewrite length_app in *. simpl in Hlen. lia.
Qed.

Lemma createTale_fresh_likes newId user body db db' id tale :
  createTale newId user body db = (db', Json 201 (TaleDoc id tale)) ->
  likes tale = 0 ∧ likedBy tale = [] ∧ db' = <[id := tale]> db.
Proof.
  unfold createTale, TaleCreate.
  destruct (validateTale _ _ _ _); [|done].
  by intros [= <- <- <-].
Qed.

Lemma createTale_accounted newId user body db :
  allAccounted db -> allAccounted (createTale newId user body db).1.
Proof.
  intros Hdb. unfold createTale, TaleCreate.
  destruct (validateTale _ _ _ _); [|done]. simpl.
  apply map_Forall_insert_2; [|done].
  split; [done | apply NoDup_nil_2].
Qed.

Lemma updateTale_accounted id user body db :
  leavesLikes body -> allAccounted db ->
  allAccounted (updateTale id user body db).1.
Proof.
  intros [Hlikes HlikedBy] Hdb. unfold updateTale.
  destruct (db !! id) as [tale|] eqn:Hfound; [|done].
  destruct (negb _); [done|].
  destruct (updateErrors body); [|done]. simpl.
  apply map_Forall_insert_2; [|done].
  apply Hdb in Hfound. unfold accounted, applyUpdate. simpl.
  by rewrite Hlikes, HlikedBy.
Qed.

Lemma deleteTale_accounted id user db :
  allAccounted db -> allAccounted (deleteTale id user db).1.
Proof.
  intros Hdb. unfold deleteTale.
  destruct (db !! id) as [tale|]; [|done].
  destruct (negb _); [done|]. simpl. by apply map_Forall_delete.
Qed.

Lemma likeTale_accounted id user db :
  allAccounted db -> allAccounted (likeTale id user db).1.
Proof.
  intros Hdb.
  destruct (db !! id) as [tale|] eqn:Hfound;
    [|by rewrite (likeTale_notFound db id user Hfound)].
  destruct (isPublic tale) eqn:Hpublic;
    [|by rewrite (likeTale_private db id user tale Hfound Hpublic)].
  pose proof (Hdb _ _ Hfound) as Hacc. simpl in Hacc.
  destruct (decide (_id user ∈ likedBy tale)) as [Hin|Hout].
  - destruct (indexOf_found _ _ Hin) as (l1 & l2 & Hl & Hl1 & _).
    rewrite (likeTale_unlike db id tale user Hfound Hpublic l1 l2 Hl Hl1).
    simpl. apply map_Forall_insert_2; [|done].
    by eapply accounted_unlike.
  - rewrite (likeTale_like db id tale user Hfound Hpublic Hout). simpl.
    apply map_Forall_insert_2; [|done]. by apply accounted_like.
Qed.

(** The author updates a fresh tale with a body that names [likes]: the
    stored counter is 5 while nobody likes the tale. *)
Lemma update_breaks_like_count :
  ¬ (∀ db, reachable (fun _ => True) db ->
     ∀ id tale, db !! id = Some tale ->
     likes tale = distinctCount (likedBy tale)).
Proof.
  intros Hevery.
  assert (Hreach : reachable (fun _ => True)
                     (updateTale 7 {| _id := 1 |} likesBody foxDb).1).
  { apply reach_update; [|done].
    apply reach_create; [apply reach_empty | reflexivity]. }
  specialize (Hevery _ Hreach 7%N
    (applyUpdate likesBody
       (mkTale (js "The Brave Fox") (js "Once upon a time.") (js "5-7")
               (js "animals") 1 true 0 [])) eq_refl).
  discriminate Hevery.
Qed.

(** The count is lost in two ways: by an update whose body names [likes],
    and, with bodies that leave [likes] and [likedBy] alone, when the likes
    of two users on the fresh tale are in flight together (user 3 reads,
    user 2 reads, user 2 saves, user 3 saves). *)
Lemma likes_count_breaks :
  ¬ (∀ db, reachable (fun _ => True) db ->
     ∀ id tale, db !! id = Some tale ->
     likes tale = distinctCount (likedBy tale))
  ∧ reachable leavesLikes foxDb
  ∧ foxDb !! 7%N = Some (Concurrent.doc freshFox)
  ∧ Concurrent.doc (Concurrent.stored
      (Concurrent.runSchedule [1; 0; 0; 1]%nat twoLikes))
    = mkTale (js "The Brave Fox") (js "Once upon a time.") (js "5-7")
             (js "animals") 1 true 1 [2%N; 3%N]
  ∧ likes (Concurrent.doc (Concurrent.stored
      (Concurrent.runSchedule [1; 0; 0; 1]%nat twoLikes)))
    ≠ distinctCount (likedBy (Concurrent.doc (Concurrent.stored
        (Concurrent.runSchedule [1; 0; 0; 1]%nat twoLikes)))).
Proof.
  split; [exact update_breaks_like_count|]. split.
  { apply reach_create; [apply reach_empty | reflexivity]. }
  split; [reflexivity|]. split; [reflexivity | discriminate].
Qed.

(** C1 (amended). With the requests served one after another, each to its
    response before the next: a tale that [createTale] stores has
    [likes = 0] and an empty [likedBy]; [likeTale] keeps, in every tale,
    [likes] equal to the number of distinct identities in a [likedBy]
    without repetition; and so this holds of every tale reachable through
    [createTale], [likeTale], [deleteTale] and [updateTale] with bodies that
    name neither [likes] nor [likedBy]. *)
Theorem likes_count_likedBy :
  (∀ newId user body db db' id tale,
     createTale newId user body db = (db', Json 201 (TaleDoc id tale)) ->
     likes tale = 0 ∧ likedBy tale = [] ∧ db' !! id = Some tale)
  ∧ (∀ id user db, allAccounted db -> allAccounted (likeTale id user db).1)
  ∧ (∀ db, reachable leavesLikes db ->
     ∀ id tale, db !! id = Some tale ->
     likes tale = distinctCount (likedBy tale) ∧ NoDup (likedBy tale)).
Proof.
  split; [|split].
  - intros newId user body db db' id tale Hcreate.
    apply createTale_fresh_likes in Hcreate as (Hlikes & HlikedBy & ->).
    by rewrite lookup_insert_eq.
  - intros id user db. apply likeTale_accounted.
  - intros db Hreach.
    assert (Hall : allAccounted db).
    { induction Hreach as [|db newId user body _ IH _|db id user body _ IH Hb
                           |db id user _ IH|db id user _ IH].
      - apply map_Forall_empty.
      - by apply createTale_accounted.
      - by apply updateTale_accounted.
      - by apply deleteTale_accounted.
      - by apply likeTale_accounted. }
    intros id tale Hfound. exact (Hall id tale Hfound).
Qed.

Lemma likes_count_likedBy_witness :
  reachable leavesLikes
    (likeTale 7 {| _id := 2 |}
       (updateTale 7 {| _id := 1 |} titleBody foxDb).1).1
  ∧ (∃ tale,
       (likeTale 7 {| _id := 2 |}
          (updateTale 7 {| _id := 1 |} titleBody foxDb).1).1 !! 7%N
       = Some tale
       ∧ likes tale = 1 ∧ likedBy tale = [2%N]
       ∧ likes tale = distinctCount (likedBy tale)).
Proof.
  assert (Hreach : reachable leavesLikes
    (likeTale 7 {| _id := 2 |}
       (updateTale 7 {| _id := 1 |} titleBody foxDb).1).1).
  { apply reach_like, reach_update; [|done].
    apply reach_create; [apply reach_empty | reflexivity]. }
  split; [exact Hreach|].
  eexists. split; [reflexivity|]. split; [reflexivity|].
  split; [reflexivity|].
  exact (proj1 (proj2 (proj2 likes_count_likedBy) _ Hreach 7%N _ eq_refl)).
Defined.

(** ** Toggling twice *)

(** User 2 toggles twice on that tale: the counter goes from 0 to 0 to 1. *)
Lemma likeTale_twice_drifts :
  (∃ tale, skewedDb !! 7%N = Some tale ∧ isPublic tale = true
           ∧ likes tale = 0 ∧ likedBy tale = [2%N])
  ∧ (likeTale 7 {| _id := 2 |} skewedDb).2 = Json 200 (LikeResult false 0)
  ∧ (likeTale 7 {| _id := 2 |} (likeTale 7 {| _id := 2 |} skewedDb).1).2
    = Json 200 (LikeResult true 1)
  ∧ likes <$> (likeTale 7 {| _id := 2 |}
                 (likeTale 7 {| _id := 2 |} skewedDb).1).1 !! 7%N
    ≠ likes <$> skewedDb !! 7%N.
Proof.
  split; [eexists; repeat split; reflexivity|].
  split; [reflexivity|]. split; [reflexivity|]. discriminate.
Qed.

(** C3 (amended). On an existing public tale whose [likes] counts a
    [likedBy] without repetition, two [likeTale] requests in a row by the
    same user leave [likes] and the user's liked-state as they were (and
    [likedBy] with the same identities); the second response carries the
    original liked-state and count. *)
Theorem likeTale_twice (db : Tales) (id : ObjectId) (tale : Tale)
    (user : User) :
  db !! id = Some tale -> isPublic tale = true -> accounted tale ->
  ∃ tale',
    (likeTale id user (likeTale id user db).1).1 !! id = Some tale'
    ∧ likes tale' = likes tale
    ∧ (_id user ∈ likedBy tale' <-> _id user ∈ likedBy tale)
    ∧ likedBy tale' ≡ₚ likedBy tale
    ∧ tale' = set_likedBy (likedBy tale') tale
    ∧ (likeTale id user (likeTale id user db).1).2
      = Json 200 (LikeResult (bool_decide (_id user ∈ likedBy tale))
                             (likes tale)).
Proof.
  intros Hfound Hpublic Hacc.
  pose proof (accounted_length tale Hacc) as Hlen.
  destruct (decide (_id user ∈ likedBy tale)) as [Hin|Hout].
  - destruct (indexOf_found _ _ Hin) as (l1 & l2 & Hl & Hl1 & _).
    rewrite (likeTale_unlike db id tale user Hfound Hpublic l1 l2 Hl Hl1).
    simpl.
    set (once := set_likedBy (l1 ++ l2) _).
    assert (Hout : _id user ∉ likedBy once).
    { destruct Hacc as [_ Hnd]. rewrite Hl in Hnd. simpl.
      apply NoDup_app in Hnd as (_ & Hdisj & Hnd).
      apply NoDup_cons in Hnd as [Hl2 _].
      intros [H1|H2]%elem_of_app; done. }
    rewrite (likeTale_like (<[id := once]> db) id once user
               (lookup_insert_eq _ _ _) Hpublic Hout).
    simpl. eexists. split; [apply lookup_insert_eq|]. simpl.
    rewrite Hl, length_app in Hlen. simpl in Hlen.
    assert (Hlikes : Z.max 0 (likes tale - 1) + 1 = likes tale) by lia.
    rewrite Hlikes, bool_decide_eq_true_2 by done.
    repeat split; try done.
    + rewrite Hl. intros _. apply elem_of_app. right. left.
    + rewrite Hl, <- (assoc_L (++)). apply Permutation_app_head.
      symmetry. apply Permutation_cons_append.
  - rewrite (likeTale_like db id tale user Hfound Hpublic Hout). simpl.
    set (once := set_likedBy (likedBy tale ++ [_id user]) _).
    rewrite (likeTale_unlike (<[id := once]> db) id once user
               (lookup_insert_eq _ _ _) Hpublic (likedBy tale) []
               eq_refl Hout).
    simpl. eexists. split; [apply lookup_insert_eq|]. simpl.
    assert (Hlikes : Z.max 0 (likes tale + 1 - 1) = likes tale) by lia.
    rewrite Hlikes, bool_decide_eq_false_2, app_nil_r by done.
    repeat split; done.
Qed.

Lemma likeTale_twice_witness :
  sampleDb !! 7%N = Some sampleTale ∧ isPublic sampleTale = true
  ∧ accounted sampleTale
  ∧ (likeTale 7 {| _id := 3 |} sampleDb).2 = Json 200 (LikeResult false 1)
  ∧ (likeTale 7 {| _id := 3 |} (likeTale 7 {| _id := 3 |} sampleDb).1).2
    = Json 200 (LikeResult true 2).
Proof.
  assert (Hacc : accounted sampleTale).
  { split; [reflexivity|]. by apply (bool_decide_unpack _). }
  split; [reflexivity|]. split; [reflexivity|]. split; [exact Hacc|].
  split; [reflexivity|].
  destruct (likeTale_twice sampleDb 7 sampleTale {| _id := 3 |}
              eq_refl eq_refl Hacc) as (tale' & _ & _ & _ & _ & _ & Hresp).
  exact Hresp.
Defined.

(** ** Parsing the generated text *)

Section Matching.

Implicit Types (s line tail : jsstring) (st : mstate).


Lemma exec_lineEnd st :
  exec (Alt (Chr 10) Eol) st Some =
    match rest st with
    | [] => Some st
    | c :: s => if (10 =? c)%N then Some (moveTo st (S (pos st)) s) else None
    end.
Proof.
  cbn [exec]. destruct (rest st) as [|c s]; [done|]. by destruct (10 =? c)%N.
Qed.

(** A lazy star over [.] runs to the end of the line when the continuation
    accepts nothing before a line feed. *)
Lemma starLazy_line st n line tail k :
  (∀ m c s, c ≠ 10%N -> k (moveTo st m (c :: s)) = None) ->
  forallb isDot line = true ->
  match tail with [] => True | c :: _ => isDot c = false end ->
  starLazy isDot st n (line ++ tail) k
    = k (moveTo st (n + length line) tail).
Proof.
  intros Hk. revert n.
  induction line as [|c line IH]; intros n Hline Htail; simpl.
  - rewrite Nat.add_0_r. destruct tail as [|c tail]; simpl.
    + by destruct (k _).
    + rewrite Htail. by destruct (k _).
  - apply andb_true_iff in Hline as [Hc Hline].
    rewrite Hk, Hc.
    + rewrite IH by done. f_equal. f_equal. lia.
    + intros ->. done.
Qed.


Lemma search_Bol_later r n s : search (Seq Bol r) (S n) s = None.
Proof.
  revert n. induction s as [|c s IH]; intros n; simpl; [done|]. apply IH.
Qed.

Lemma search_hit r start s st :
  exec r {| pos := start; rest := s; group1 := None |} Some = Some st ->
  search r start s
    = Some {| index := start; matched := take (pos st - start) s;
              captured := group1 st |}.
Proof. intros Hexec. destruct s; cbn [search]; by rewrite Hexec. Qed.

Lemma startsWith_app m s : startsWith (m ++ s) m = true.
Proof.
  induction m as [|c m IH]; simpl; [by destruct s|].
  by rewrite N.eqb_refl.
Qed.

Lemma replaceFirstWithEmpty_prefix m s : replaceFirstWithEmpty (m ++ s) m = s.
Proof.
  assert (Hunfold : replaceFirstWithEmpty (m ++ s) m
            = if startsWith (m ++ s) m then drop (length m) (m ++ s)
              else match m ++ s with
                   | c :: s' => c :: replaceFirstWithEmpty s' m
                   | [] => []
                   end) by by destruct (m ++ s).
  by rewrite Hunfold, startsWith_app, drop_app_length.
Qed.


Lemma exec_Seq r1 r2 st k :
  exec (Seq r1 r2) st k = exec r1 st (fun st' => exec r2 st' k).
Proof. done. Qed.

Lemma exec_Bol st k : pos st = 0%nat -> exec Bol st k = k st.
Proof. intros Hpos. cbn [exec]. by rewrite bool_decide_eq_true_2. Qed.


Lemma exec_Group r st k :
  exec (Group r) st k =
    exec r st (fun st' =>
      k {| pos := pos st'; rest := rest st';
           group1 := Some (take (pos st' - pos st) (rest st)) |}).
Proof. done. Qed.

Lemma exec_StarLazy p st k :
  exec (StarLazy p) st k = starLazy p st (pos st) (rest st) k.
Proof. done. Qed.




Lemma no_heading text :
  match text with c :: _ => c ≠ 35%N | [] => True end ->
  jsmatch text headingTitle = None.
Proof.
  intros Hfirst. unfold jsmatch, headingTitle.
  destruct text as [|c s]; cbn [search].
  - by rewrite exec_Seq, exec_Bol, exec_Seq.
  - rewrite exec_Seq, exec_Bol, exec_Seq by done. cbn [exec rest].
    destruct (N.eqb_spec 35 c); [congruence|]. apply search_Bol_later.
Qed.






Lemma isDot_not_space c : isSpace c = false -> isDot c = true.
Proof.
  unfold isSpace, isDot. intros H%orb_false_iff. by rewrite (proj2 H).
Qed.


End Matching.


(** After a bare [#] the white space the first expression skips includes
    the line feed: the title comes from the second line. *)
Lemma generateTale_bare_heading :
  extractTale bareHeadingText = Some (js "Foo", js "Bar")
  ∧ specTitle bareHeadingText = []
  ∧ specBody bareHeadingText = js "Foo" ++ [10%N] ++ js "Bar"
  ∧ plainFirstLine bareHeadingText = false
  ∧ plainFirstLine crlfText = false.
Proof. repeat split; reflexivity. Qed.



(** Users 2 and 3 like the fresh tale; both requests read before either
    saves.  Both are answered [liked: true, likes: 1] and the stored counter
    is 1 with two identities in [likedBy]; served one after another the
    counter is 2. *)
Lemma interleaved_likes_lose_count :
  Concurrent.runSchedule [0; 1; 0; 1]%nat twoLikes
    = {| Concurrent.stored :=
           {| Concurrent.doc :=
                mkTale (js "The Brave Fox") (js "Once upon a time.")
                       (js "5-7") (js "animals") 1 true 1 [2%N; 3%N];
              Concurrent.version := 2 |};
         Concurrent.requests :=
           [Concurrent.Responded (Json 200 (LikeResult true 1));
            Concurrent.Responded (Json 200 (LikeResult true 1))] |}
  ∧ likes (Concurrent.doc (Concurrent.stored
             (Concurrent.runSchedule [0; 1; 0; 1]%nat twoLikes)))
    ≠ distinctCount (likedBy (Concurrent.doc (Concurrent.stored
             (Concurrent.runSchedule [0; 1; 0; 1]%nat twoLikes))))
  ∧ likes (Concurrent.doc (Concurrent.stored
             (Concurrent.runSchedule (Concurrent.oneByOne 0 2) twoLikes)))
    = 2.
Proof. split; [reflexivity|]. split; [discriminate | reflexivity]. Qed.

Section OneByOne.

Import Concurrent.

Lemma step_at (served rest : list Request) (r : Request) (s : Stored) :
  requests
    {| stored := s; requests := served ++ r :: rest |} !! length served = Some r
  ∧ ∀ r', <[length served := r']> (served ++ r :: rest) = served ++ r' :: rest.
Proof.
  split; [by apply list_lookup_middle|].
  intros r'. rewrite insert_app_r_alt by lia. by rewrite Nat.sub_diag.
Qed.

(** Served without another request in between, a request does to the stored
    document what [likeTale] does, and is answered as [likeTale] answers. *)
Lemma serve_alone (user : User) (s : Stored) (served rest : list Request) :
  ∃ s' response,
    runSchedule [length served; length served]
      {| stored := s; requests := served ++ Received user :: rest |}
    = {| stored := s'; requests := served ++ Responded response :: rest |}
    ∧ ∀ id, likeTale id user {[id := doc s]} = ({[id := doc s']}, response).
Proof.
  unfold runSchedule. cbn [foldl]. unfold step at 2.
  destruct (step_at served rest (Received user) s) as [-> ->].
  cbn [stored]. unfold load, likeTale.
  destruct (isPublic (doc s)) eqn:Hpublic; cbn [negb].
  - destruct (indexOf (likedBy (doc s)) (_id user) =? -1) eqn:Hindex.
    + unfold step.
      destruct (step_at served rest
        (Saving (SavePush (likes (doc s) + 1) (_id user))
                (LikeResult true (likes (doc s) + 1))) s) as [-> ->].
      cbn [store stored]. eexists _, _. split; [done|].
      intros id. rewrite lookup_singleton_eq, Hpublic, Hindex.
      cbn [negb]. by rewrite insert_singleton_eq.
    + unfold step.
      destruct (step_at served rest
        (Saving (SaveArray (Z.max 0 (likes (doc s) - 1))
                   (splice1 (likedBy (doc s))
                            (indexOf (likedBy (doc s)) (_id user)))
                   (version s))
                (LikeResult false (Z.max 0 (likes (doc s) - 1)))) s)
        as [-> ->].
      cbn [store stored]. rewrite N.eqb_refl. eexists _, _. split; [done|].
      intros id. rewrite lookup_singleton_eq, Hpublic, Hindex.
      cbn [negb]. by rewrite insert_singleton_eq.
  - unfold step.
    destruct (step_at served rest
      (Responded (Json 403 (Message "Cannot like a private tale"))) s)
      as [-> _].
    exists s, (Json 403 (Message "Cannot like a private tale")).
    split; [done|]. intros id. by rewrite lookup_singleton_eq, Hpublic.
Qed.

Lemma oneByOne_S first n :
  oneByOne first (S n) = [first; first] ++ oneByOne (S first) n.
Proof. done. Qed.

Lemma runSchedule_app schedule1 schedule2 st :
  runSchedule (schedule1 ++ schedule2) st
    = runSchedule schedule2 (runSchedule schedule1 st).
Proof. apply foldl_app. Qed.

Lemma oneByOne_from (id : ObjectId) (users : list User) :
  ∀ (served : list Request) (s : Stored),
    let final :=
      runSchedule (oneByOne (length served) (length users))
        {| stored := s; requests := served ++ (Received <$> users) |} in
    (likeAll id users {[id := doc s]}).1 = {[id := doc (stored final)]}
    ∧ requests final
      = served ++ (Responded <$> (likeAll id users {[id := doc s]}).2).
Proof.
  induction users as [|user users IH]; intros served s; [done|].
  cbn [length fmap list_fmap likeAll].
  rewrite oneByOne_S, runSchedule_app.
  destruct (serve_alone user s served (Received <$> users))
    as (s' & response & -> & Hlike).
  rewrite (Hlike id).
  specialize (IH (served ++ [Responded response]) s').
  rewrite length_app, Nat.add_1_r, <- (assoc_L (++)) in IH.
  cbn [app] in IH. destruct IH as [IHdb IHrequests].
  destruct (likeAll id users {[id := doc s']}) as [db responses].
  cbn [fst snd] in *. split; [done|].
  rewrite IHrequests. by rewrite <- (assoc_L (++)).
Qed.

End OneByOne.

Lemma likeAll_accounted (id : ObjectId) (users : list User) (db : Tales) :
  allAccounted db -> allAccounted (likeAll id users db).1.
Proof.
  revert db. induction users as [|user users IH]; intros db Hdb; [done|].
  cbn [likeAll].
  pose proof (likeTale_accounted id user db Hdb) as Hstep.
  destruct (likeTale id user db) as [db' response].
  specialize (IH db' Hstep).
  by destruct (likeAll id users db') as [db'' responses].
Qed.

(** C9 (amended). [likeTale] reads the tale and saves it in two store
    operations.  When the requests on a tale are served one after another,
    the stored document and the responses are those of the [likeTale]
    requests taken in turn, so every toggle is reflected: [likes] stays the
    number of identities in [likedBy]. *)
Theorem oneByOne_reflects_every_toggle (id : ObjectId) (users : list User)
    (s : Concurrent.Stored) :
  let final :=
    Concurrent.runSchedule (Concurrent.oneByOne 0 (length users))
      {| Concurrent.stored := s;
         Concurrent.requests := Concurrent.Received <$> users |} in
  (likeAll id users {[id := Concurrent.doc s]}).1
    = {[id := Concurrent.doc (Concurrent.stored final)]}
  ∧ Concurrent.requests final
    = Concurrent.Responded <$> (likeAll id users {[id := Concurrent.doc s]}).2
  ∧ (accounted (Concurrent.doc s) ->
     accounted (Concurrent.doc (Concurrent.stored final))).
Proof.
  pose proof (oneByOne_from id users [] s) as [Hdb Hrequests].
  cbn [length app] in *. split; [done|]. split; [done|].
  intros Hacc.
  assert (Hall : allAccounted {[id := Concurrent.doc s]})
    by by apply map_Forall_singleton.
  apply (likeAll_accounted id users) in Hall. rewrite Hdb in Hall.
  by apply map_Forall_singleton in Hall.
Qed.

Lemma oneByOne_reflects_every_toggle_witness :
  accounted (Concurrent.doc freshFox)
  ∧ accounted (Concurrent.doc (Concurrent.stored
      (Concurrent.runSchedule (Concurrent.oneByOne 0 2) twoLikes)))
  ∧ Concurrent.requests
      (Concurrent.runSchedule (Concurrent.oneByOne 0 2) twoLikes)
    = [Concurrent.Responded (Json 200 (LikeResult true 1));
       Concurrent.Responded (Json 200 (LikeResult true 2))].
Proof.
  assert (Hacc : accounted (Concurrent.doc freshFox)).
  { split; [reflexivity | apply NoDup_nil_2]. }
  split; [exact Hacc|].
  destruct (oneByOne_reflects_every_toggle 7
              [{| _id := 2 |}; {| _id := 3 |}] freshFox)
    as (_ & _ & Hfinal).
  split; [exact (Hfinal Hacc) | reflexivity].
Defined.

(** * Further properties *)

(** ** What the validators accept *)

Lemma validate_title s :
  validatePath titlePath (Some s) = None
  <-> s ≠ [] ∧ (length s <= 100)%nat.
Proof.
  unfold validatePath. cbn [required enum maxlength titlePath andb].
  destruct (decide (s = [])) as [->|Hs].
  - split; [done | by intros [? _]].
  - rewrite bool_decide_eq_false_2 by done.
    destruct (Nat.ltb_spec 100 (length s)) as [Hlong|Hshort].
    + split; [done | intros [_ Hle]; lia].
    + split; [intros _; split; [done | lia] | done].
Qed.

Lemma validate_content s :
  validatePath contentPath (Some s) = None <-> s ≠ [].
Proof.
  unfold validatePath. cbn [required enum maxlength contentPath andb].
  destruct (decide (s = [])) as [->|Hs].
  - by split.
  - by rewrite bool_decide_eq_false_2.
Qed.

Lemma validate_enum p values s :
  required p = true -> enum p = Some values -> maxlength p = None ->
  [] ∉ values ->
  validatePath p (Some s) = None <-> s ∈ values.
Proof.
  intros Hreq Henum Hmax Hnil. unfold validatePath.
  rewrite Hreq, Henum, Hmax. cbn [andb]. unfold inList.
  destruct (decide (s = [])) as [->|Hs].
  - rewrite bool_decide_eq_true_2 by done. by split.
  - rewrite bool_decide_eq_false_2 by done.
    destruct (decide (s ∈ values)) as [Hin|Hout].
    + by rewrite bool_decide_eq_true_2.
    + rewrite bool_decide_eq_false_2 by done. by split.
Qed.

Lemma validate_ageRange s :
  validatePath ageRangePath (Some s) = None <-> s ∈ ageRanges.
Proof.
  apply validate_enum; try done. by apply (bool_decide_unpack _).
Qed.

Lemma validate_topic s :
  validatePath topicPath (Some s) = None <-> s ∈ topics.
Proof.
  apply validate_enum; try done. by apply (bool_decide_unpack _).
Qed.

Lemma pathError_nil p v : pathError p v = [] <-> validatePath p v = None.
Proof. unfold pathError. by destruct (validatePath p v). Qed.

Lemma validateTale_nil title content ageRange topic :
  validateTale title content ageRange topic = []
  <-> validatePath titlePath title = None
      ∧ validatePath contentPath content = None
      ∧ validatePath ageRangePath ageRange = None
      ∧ validatePath topicPath topic = None.
Proof.
  unfold validateTale. rewrite !app_nil, !pathError_nil. tauto.
Qed.

Lemma schemaValid_validates t :
  schemaValid t
  <-> validateTale (Some (title t)) (Some (content t)) (Some (ageRange t))
                   (Some (topic t)) = [].
Proof.
  unfold schemaValid.
  rewrite validateTale_nil, validate_title, validate_content,
    validate_ageRange, validate_topic. tauto.
Qed.

(** ** Creating a tale, continued *)

Lemma TaleCreate_valid title content ageRange topic author isPublic t c a p :
  title = Some t -> content = Some c -> ageRange = Some a -> topic = Some p ->
  trim t ≠ [] -> (length (trim t) <= 100)%nat -> trim c ≠ [] ->
  a ∈ ageRanges -> p ∈ topics ->
  TaleCreate title content ageRange topic author isPublic
    = inr (mkTale (trim t) (trim c) a p author isPublic 0 []).
Proof.
  intros -> -> -> -> Ht Hlen Hc Ha Hp. unfold TaleCreate.
  cbn [fmap option_fmap option_map].
  change (applySetters titlePath t) with (trim t).
  change (applySetters contentPath c) with (trim c).
  change (applySetters ageRangePath a) with a.
  change (applySetters topicPath p) with p.
  assert (Hvalid : validateTale (Some (trim t)) (Some (trim c)) (Some a)
                                (Some p) = []).
  { apply validateTale_nil.
    by rewrite validate_title, validate_content, validate_ageRange,
      validate_topic. }
  by rewrite Hvalid.
Qed.

Lemma validateTale_creatable body :
  validateTale (applySetters titlePath <$> b_title body)
               (applySetters contentPath <$> b_content body)
               (applySetters ageRangePath <$> b_ageRange body)
               (applySetters topicPath <$> b_topic body) = []
  <-> creatable body.
Proof.
  rewrite validateTale_nil. unfold creatable.
  destruct (b_title body) as [t|], (b_content body) as [c|],
    (b_ageRange body) as [a|], (b_topic body) as [p|];
    cbn [fmap option_fmap option_map].
  1: { change (applySetters titlePath t) with (trim t).
       change (applySetters contentPath c) with (trim c).
       change (applySetters ageRangePath a) with a.
       change (applySetters topicPath p) with p.
       rewrite validate_title, validate_content, validate_ageRange,
         validate_topic.
       split.
       - intros ([Ht Hlen] & Hc & Ha & Hp). by repeat (split || eexists).
       - intros ((t' & [= <-] & Ht & Hlen) & (c' & [= <-] & Hc)
                 & (a' & [= <-] & Ha) & (p' & [= <-] & Hp)). done. }
  all: split; [intros (H1 & H2 & H3 & H4); discriminate|].
  all: intros ((t' & Ht & _) & (c' & Hc & _) & (a' & Ha & _) & (p' & Hp & _));
    discriminate.
Qed.

(** X1. [createTale] answers 201 exactly for the bodies that carry the four
    fields with a [title] and a [content] that are not blank, a trimmed
    [title] of at most 100 code units and recognized [ageRange] and [topic];
    for every other body it passes a validation error on and stores
    nothing. *)
Theorem createTale_accepts_iff (newId : ObjectId) (user : User) (body : Body)
    (db : Tales) :
  ((∃ doc, (createTale newId user body db).2 = Json 201 doc)
   <-> creatable body)
  ∧ (¬ creatable body ->
     ∃ errors,
       errors ≠ []
       ∧ createTale newId user body db = (db, Next (ValidationError errors))).
Proof.
  pose proof (validateTale_creatable body) as Hiff.
  unfold createTale, TaleCreate.
  destruct (validateTale _ _ _ _) as [|e errors] eqn:Herrors.
  - split; [split; [intros _; by apply Hiff | by eexists]|].
    intros Hnot. destruct Hnot. by apply Hiff.
  - split.
    + split; [by intros [doc Hdoc] | intros Hok%Hiff; discriminate].
    + intros _. by exists (e :: errors).
Qed.

Lemma createTale_accepts_iff_witness :
  creatable foxBody ∧ ¬ creatable blankTitleBody
  ∧ (∃ doc, (createTale 9 {| _id := 1 |} foxBody sampleDb).2 = Json 201 doc)
  ∧ (∃ errors,
       createTale 9 {| _id := 1 |} blankTitleBody sampleDb
       = (sampleDb, Next (ValidationError errors))).
Proof.
  assert (Hfox : creatable foxBody).
  { apply validateTale_creatable. reflexivity. }
  assert (Hblank : ¬ creatable blankTitleBody).
  { intros H%validateTale_creatable. discriminate H. }
  split; [exact Hfox|]. split; [exact Hblank|]. split.
  - apply (proj1 (createTale_accepts_iff 9 {| _id := 1 |} foxBody sampleDb)).
    exact Hfox.
  - destruct (proj2 (createTale_accepts_iff 9 {| _id := 1 |} blankTitleBody
                       sampleDb) Hblank) as (errors & _ & Hcreate).
    by exists errors.
Defined.

(** X2. The tale [createTale] stores takes its author from the requester
    and starts with no likes, whatever the body says of [author], [likes] and
    [likedBy]; its [title] and [content] are trimmed and it is private unless
    the body says otherwise.  It is stored under the new [_id] beside the
    other tales, and its author, a user of the [users] collection, reads it
    back by that [_id] (without a user document for the requester the read
    ends in the error handler). *)
Theorem createTale_stores (users : Users) (newId : ObjectId) (user : User)
    (body : Body) (db : Tales) t c a p :
  b_title body = Some t -> b_content body = Some c ->
  b_ageRange body = Some a -> b_topic body = Some p ->
  trim t ≠ [] -> (length (trim t) <= 100)%nat -> trim c ≠ [] ->
  a ∈ ageRanges -> p ∈ topics ->
  let tale :=
    mkTale (trim t) (trim c) a p (_id user)
           (default false (b_isPublic body)) 0 [] in
  createTale newId user body db
    = (<[newId := tale]> db, Json 201 (TaleDoc newId tale))
  ∧ (∀ id, id ≠ newId ->
       (createTale newId user body db).1 !! id = db !! id)
  ∧ getTaleById users newId (Some user) (createTale newId user body db).1
    = ((createTale newId user body db).1,
       match users !! _id user with
       | Some _ => Json 200 (TaleDoc newId tale)
       | None => Next TypeError
       end).
Proof.
  intros Ht Hc Ha Hp Htrim Hlen Hcontent HageRange Htopic tale.
  assert (Hcreate : createTale newId user body db
                    = (<[newId := tale]> db, Json 201 (TaleDoc newId tale))).
  { unfold createTale.
    by rewrite (TaleCreate_valid _ _ _ _ (_id user)
                  (default false (b_isPublic body)) t c a p). }
  rewrite Hcreate. cbn [fst]. split; [done|]. split.
  - intros id Hid. by rewrite lookup_insert_ne.
  - unfold getTaleById. rewrite lookup_insert_eq.
    cbn [populate p_author fst snd author tale].
    destruct (users !! _id user) as [name|];
      cbn [fmap option_fmap option_map]; [|done].
    rewrite bool_decide_eq_true_2 by done. by rewrite andb_false_r.
Qed.

Lemma createTale_stores_witness :
  createTale 9 {| _id := 1 |} draftBody sampleDb
  = (<[9%N := mkTale (js "The Shy Owl") (js "Deep in the wood.") (js "2-4")
                     (js "nature") 1 false 0 []]> sampleDb,
     Json 201 (TaleDoc 9 (mkTale (js "The Shy Owl") (js "Deep in the wood.")
                                 (js "2-4") (js "nature") 1 false 0 []))).
Proof.
  refine (proj1 (createTale_stores sampleUsers 9 {| _id := 1 |} draftBody
            sampleDb
            (js " The Shy Owl ") (js "Deep in the wood.") (js "2-4")
            (js "nature") eq_refl eq_refl eq_refl eq_refl _ _ _ _ _)).
  - discriminate.
  - vm_compute. lia.
  - discriminate.
  - by apply (bool_decide_unpack _).
  - by apply (bool_decide_unpack _).
Defined.

(** ** Ownership, updates and deletion *)

Lemma update_check p v (accepts : jsstring -> Prop) :
  (∀ s, validatePath p (Some (applySetters p s)) = None <-> accepts s) ->
  match v with
  | Some s => pathError p (Some (applySetters p s))
  | None => []
  end = [] <-> ∀ s, v = Some s -> accepts s.
Proof.
  intros Haccepts. destruct v as [s|].
  - rewrite pathError_nil, Haccepts. split.
    + by intros Hs s' [= <-].
    + intros Hs. by apply Hs.
  - split; [by intros _ s' | done].
Qed.

Lemma updateErrors_updatable body : updateErrors body = [] <-> updatable body.
Proof.
  unfold updateErrors, updatable. cbv zeta beta. rewrite !app_nil.
  rewrite (update_check titlePath (b_title body)
             (fun t => trim t ≠ [] ∧ (length (trim t) <= 100)%nat))
    by (intros s; apply validate_title).
  rewrite (update_check contentPath (b_content body) (fun c => trim c ≠ []))
    by (intros s; apply validate_content).
  rewrite (update_check ageRangePath (b_ageRange body)
             (fun a => a ∈ ageRanges))
    by (intros s; apply validate_ageRange).
  rewrite (update_check topicPath (b_topic body) (fun p => p ∈ topics))
    by (intros s; apply validate_topic).
  done.
Qed.

Lemma updateTale_by_author db id user body tale :
  db !! id = Some tale -> author tale = _id user ->
  updateTale id user body db =
    match updateErrors body with
    | [] => (<[id := applyUpdate body tale]> db,
             Json 200 (TaleDoc id (applyUpdate body tale)))
    | errors => (db, Next (ValidationError errors))
    end.
Proof.
  intros Hfound Hauthor. unfold updateTale.
  rewrite Hfound, bool_decide_eq_true_2 by done. done.
Qed.

Lemma updateTale_not_author db id user body tale :
  db !! id = Some tale -> _id user ≠ author tale ->
  updateTale id user body db
    = (db, Json 403 (Message "Not authorized to update this tale")).
Proof.
  intros Hfound Hother. unfold updateTale.
  rewrite Hfound, bool_decide_eq_false_2 by done. done.
Qed.

(** X3. A requester who is not the author of an existing tale is answered
    403 by [updateTale] and by [deleteTale], whatever the body and whether
    the tale is public or not; the collection stays as it was. *)
Theorem only_author_mutates (db : Tales) (id : ObjectId) (tale : Tale)
    (user : User) (body : Body) :
  db !! id = Some tale -> _id user ≠ author tale ->
  updateTale id user body db
    = (db, Json 403 (Message "Not authorized to update this tale"))
  ∧ deleteTale id user db
    = (db, Json 403 (Message "Not authorized to delete this tale")).
Proof.
  intros Hfound Hother. split; [by apply (updateTale_not_author _ _ _ _ tale)|].
  unfold deleteTale. rewrite Hfound, bool_decide_eq_false_2 by done. done.
Qed.

Lemma only_author_mutates_witness :
  updateTale 7 {| _id := 2 |} authorBody sampleDb
    = (sampleDb, Json 403 (Message "Not authorized to update this tale"))
  ∧ deleteTale 7 {| _id := 2 |} sampleDb
    = (sampleDb, Json 403 (Message "Not authorized to delete this tale")).
Proof.
  apply (only_author_mutates sampleDb 7 sampleTale {| _id := 2 |} authorBody);
    [reflexivity | discriminate].
Defined.

(** X4. [deleteTale] by the author removes the tale and no other; from then
    on every controller that takes the [_id] answers 404.  Without a tale
    for the [_id] it answers 404 and removes nothing. *)
Theorem deleteTale_removes (db : Tales) (id : ObjectId) (user : User) :
  (db !! id = None ->
   deleteTale id user db = (db, Json 404 (Message "Tale not found")))
  ∧ (∀ tale, db !! id = Some tale -> author tale = _id user ->
     deleteTale id user db = (delete id db, Json 200 (Deleted "Tale deleted"))
     ∧ (∀ other, other ≠ id -> delete id db !! other = db !! other)
     ∧ ∀ (users : Users) (anyone : User) (requester : option User)
         (body : Body),
         (getTaleById users id requester (delete id db)).2
           = Json 404 (Message "Tale not found")
         ∧ (updateTale id anyone body (delete id db)).2
           = Json 404 (Message "Tale not found")
         ∧ (deleteTale id anyone (delete id db)).2
           = Json 404 (Message "Tale not found")
         ∧ (likeTale id anyone (delete id db)).2
           = Json 404 (Message "Tale not found")
         ∧ (checkLikeStatus id anyone (delete id db)).2
           = Json 404 (Message "Tale not found")).
Proof.
  split.
  - unfold deleteTale. by intros ->.
  - intros tale Hfound Hauthor. split; [|split].
    + unfold deleteTale. rewrite Hfound, bool_decide_eq_true_2 by done. done.
    + intros other Hother. by rewrite lookup_delete_ne.
    + intros users anyone requester body.
      unfold getTaleById, updateTale, deleteTale, likeTale, checkLikeStatus.
      by rewrite lookup_delete_eq.
Qed.

Lemma deleteTale_removes_witness :
  deleteTale 9 {| _id := 1 |} sampleDb
    = (sampleDb, Json 404 (Message "Tale not found"))
  ∧ deleteTale 7 {| _id := 1 |} sampleDb
    = (delete 7%N sampleDb, Json 200 (Deleted "Tale deleted"))
  ∧ (likeTale 7 {| _id := 3 |} (delete 7%N sampleDb)).2
    = Json 404 (Message "Tale not found").
Proof.
  pose proof (deleteTale_removes sampleDb 9 {| _id := 1 |}) as [Habsent _].
  pose proof (deleteTale_removes sampleDb 7 {| _id := 1 |}) as [_ Hauthor].
  destruct (Hauthor sampleTale eq_refl eq_refl) as (Hdelete & _ & Hgone).
  split; [apply Habsent; reflexivity|]. split; [exact Hdelete|].
  apply (Hgone sampleUsers {| _id := 3 |} None emptyBody).
Defined.



(** X6. [updateTale] neither adds nor removes a document and touches no
    tale but the one addressed; a response other than 200 means the
    collection is as it was; and in the addressed tale every field the body
    does not name keeps its value. *)
Theorem updateTale_frame (db : Tales) (id : ObjectId) (user : User)
    (body : Body) :
  dom (updateTale id user body db).1 = dom db
  ∧ (∀ other, other ≠ id -> (updateTale id user body db).1 !! other
                            = db !! other)
  ∧ ((∀ doc, (updateTale id user body db).2 ≠ Json 200 doc) ->
     (updateTale id user body db).1 = db)
  ∧ (∀ tale tale',
       db !! id = Some tale ->
       (updateTale id user body db).1 !! id = Some tale' ->
       (b_title body = None -> title tale' = title tale)
       ∧ (b_content body = None -> content tale' = content tale)
       ∧ (b_ageRange body = None -> ageRange tale' = ageRange tale)
       ∧ (b_topic body = None -> topic tale' = topic tale)
       ∧ (b_author body = None -> author tale' = author tale)
       ∧ (b_isPublic body = None -> isPublic tale' = isPublic tale)
       ∧ (b_likes body = None -> likes tale' = likes tale)
       ∧ (b_likedBy body = None -> likedBy tale' = likedBy tale)).
Proof.
  unfold updateTale.
  destruct (db !! id) as [tale|] eqn:Hfound.
  2: { split; [done|]. split; [done|]. split; [done|]. by intros tale0 tale'. }
  destruct (negb _).
  { split; [done|]. split; [done|]. split; [done|].
    intros tale0 tale' [= <-]. cbn [fst]. rewrite Hfound. intros [= <-].
    by repeat split. }
  destruct (updateErrors body) as [|e errors].
  - cbn [fst snd]. split; [|split; [|split]].
    + apply dom_insert_lookup_L. by eexists.
    + intros other Hother. by rewrite lookup_insert_ne.
    + intros Hrefused. by destruct (Hrefused (TaleDoc id (applyUpdate body tale))).
    + intros tale0 tale' [= <-]. rewrite lookup_insert_eq. intros [= <-].
      unfold applyUpdate. cbn [title content ageRange topic author isPublic
                                 likes likedBy].
      repeat split; by intros ->.
  - split; [done|]. split; [done|]. split; [done|].
    intros tale0 tale' [= <-]. cbn [fst]. rewrite Hfound. intros [= <-].
    by repeat split.
Qed.

(** ** What every stored tale satisfies *)

Lemma createTale_valid newId user body db :
  map_Forall (fun _ t => schemaValid t) db ->
  map_Forall (fun _ t => schemaValid t) (createTale newId user body db).1.
Proof.
  intros Hdb. unfold createTale, TaleCreate.
  destruct (validateTale _ _ _ _) eqn:Hvalid; [|done]. cbn [fst].
  apply map_Forall_insert_2; [|done].
  apply schemaValid_validates. cbn [title content ageRange topic].
  apply validateTale_nil in Hvalid as (Ht & Hc & Ha & Hp).
  apply validateTale_nil.
  destruct (b_title body), (b_content body), (b_ageRange body),
    (b_topic body); try discriminate. done.
Qed.

Lemma applyUpdate_valid body tale :
  updatable body -> schemaValid tale -> schemaValid (applyUpdate body tale).
Proof.
  intros (Ht & Hc & Ha & Hp) (Vt & Vlen & Vc & Va & Vp).
  unfold schemaValid, applyUpdate.
  cbn [title content ageRange topic].
  destruct (b_title body) as [t|], (b_content body) as [c|],
    (b_ageRange body) as [a|], (b_topic body) as [p|];
    cbn [fmap option_fmap option_map default];
    change (applySetters titlePath ?x) with (trim x);
    change (applySetters contentPath ?x) with (trim x);
    repeat split;
    first [done | by apply Ht | by apply Hc | by apply Ha | by apply Hp].
Qed.

Lemma updateTale_valid id user body db :
  map_Forall (fun _ t => schemaValid t) db ->
  map_Forall (fun _ t => schemaValid t) (updateTale id user body db).1.
Proof.
  intros Hdb. unfold updateTale.
  destruct (db !! id) as [tale|] eqn:Hfound; [|done].
  destruct (negb _); [done|].
  destruct (updateErrors body) eqn:Herrors; [|done]. cbn [fst].
  apply map_Forall_insert_2; [|done].
  apply applyUpdate_valid; [by apply updateErrors_updatable | by eapply Hdb].
Qed.

Lemma likeTale_valid id user db :
  map_Forall (fun _ t => schemaValid t) db ->
  map_Forall (fun _ t => schemaValid t) (likeTale id user db).1.
Proof.
  intros Hdb. unfold likeTale.
  destruct (db !! id) as [tale|] eqn:Hfound; [|done].
  destruct (negb _); [done|].
  destruct (_ =? -1); cbn [fst];
    (apply map_Forall_insert_2; [|done]); by apply (Hdb id tale).
Qed.

Lemma deleteTale_valid id user db :
  map_Forall (fun _ t => schemaValid t) db ->
  map_Forall (fun _ t => schemaValid t) (deleteTale id user db).1.
Proof.
  intros Hdb. unfold deleteTale.
  destruct (db !! id) as [tale|]; [|done].
  destruct (negb _); [done|]. by apply map_Forall_delete.
Qed.

(** X7. Every tale in a collection built by [createTale], [updateTale],
    [deleteTale] and [likeTale], with any bodies, satisfies the schema: its
    [title] is not empty and has at most 100 code units, its [content] is not
    empty, its [ageRange] is one of the four bands and its [topic] one of the
    nine topics. *)
Theorem stored_tales_valid (db : Tales) :
  reachable (fun _ => True) db ->
  ∀ id tale, db !! id = Some tale ->
    title tale ≠ [] ∧ (length (title tale) <= 100)%nat ∧ content tale ≠ []
    ∧ ageRange tale ∈ ageRanges ∧ topic tale ∈ topics.
Proof.
  intros Hreach.
  assert (Hall : map_Forall (fun _ t => schemaValid t) db).
  { induction Hreach as [|db newId user body _ IH _|db id user body _ IH _
                         |db id user _ IH|db id user _ IH].
    - apply map_Forall_empty.
    - by apply createTale_valid.
    - by apply updateTale_valid.
    - by apply deleteTale_valid.
    - by apply likeTale_valid. }
  intros id tale Hfound. exact (Hall id tale Hfound).
Qed.

Lemma stored_tales_valid_witness :
  reachable (fun _ => True) (updateTale 7 {| _id := 1 |} titleBody foxDb).1
  ∧ (∃ tale,
       (updateTale 7 {| _id := 1 |} titleBody foxDb).1 !! 7%N = Some tale
       ∧ title tale = js "The Clever Fox" ∧ topic tale ∈ topics).
Proof.
  assert (Hreach : reachable (fun _ => True)
                     (updateTale 7 {| _id := 1 |} titleBody foxDb).1).
  { apply reach_update; [|done].
    apply reach_create; [apply reach_empty | reflexivity]. }
  split; [exact Hreach|].
  eexists. split; [reflexivity|]. split; [reflexivity|].
  exact (proj2 (proj2 (proj2 (proj2
           (stored_tales_valid _ Hreach 7%N _ eq_refl))))).
Defined.

Lemma updateTale_frame_witness :
  (∃ tale',
     (updateTale 7 {| _id := 1 |} titleBody sampleDb).1 !! 7%N = Some tale'
     ∧ title tale' = js "The Clever Fox"
     ∧ likes tale' = 2 ∧ likedBy tale' = [2%N; 3%N] ∧ author tale' = 1%N)
  ∧ (updateTale 7 {| _id := 1 |} titleBody sampleDb).1 !! 8%N
    = Some privateTale.
Proof.
  destruct (updateTale_frame sampleDb 7 {| _id := 1 |} titleBody)
    as (_ & Hothers & _ & Hfields).
  split.
  - eexists. split; [reflexivity|]. split; [reflexivity|].
    destruct (Hfields sampleTale _ eq_refl eq_refl)
      as (_ & _ & _ & _ & Hauthor & _ & Hlikes & HlikedBy).
    split; [exact (Hlikes eq_refl)|].
    split; [exact (HlikedBy eq_refl) | exact (Hauthor eq_refl)].
  - rewrite Hothers by discriminate. reflexivity.
Defined.

(** ** Likes, continued *)

(** What a toggle does to an existing public tale. *)
Lemma likeTale_result (db : Tales) (id : ObjectId) (tale : Tale)
    (user : User) :
  db !! id = Some tale -> isPublic tale = true ->
  ∃ tale',
    likeTale id user db
      = (<[id := tale']> db,
         Json 200 (LikeResult (negb (bool_decide (_id user ∈ likedBy tale)))
                              (likes tale')))
    ∧ tale' = set_likedBy (likedBy tale') (set_likes (likes tale') tale)
    ∧ (NoDup (likedBy tale) ->
       NoDup (likedBy tale')
       ∧ ∀ x, x ∈ likedBy tale'
              <-> (x ≠ _id user ∧ x ∈ likedBy tale)
                  ∨ (x = _id user ∧ _id user ∉ likedBy tale))
    ∧ (accounted tale ->
       accounted tale'
       ∧ likes tale'
         = likes tale + (if bool_decide (_id user ∈ likedBy tale)
                         then -1 else 1)).
Proof.
  intros Hfound Hpublic.
  destruct (decide (_id user ∈ likedBy tale)) as [Hin|Hout].
  - destruct (indexOf_found _ _ Hin) as (l1 & l2 & Hl & Hl1 & _).
    rewrite (likeTale_unlike db id tale user Hfound Hpublic l1 l2 Hl Hl1).
    rewrite bool_decide_eq_true_2 by done.
    exists (set_likedBy (l1 ++ l2)
              (set_likes (Z.max 0 (likes tale - 1)) tale)).
    split; [reflexivity|]. split; [done|]. split.
    + rewrite Hl. cbn [likedBy set_likedBy].
      intros (Hnd1 & Hdisj & Hnd2)%NoDup_app.
      apply NoDup_cons in Hnd2 as [Hl2 Hnd2]. split.
      * apply NoDup_app. split; [done|]. split; [|done].
        intros x Hx1 Hx2. apply (Hdisj x Hx1). by right.
      * intros x. rewrite !elem_of_app, elem_of_cons. split.
        -- intros [Hx|Hx]; left; (split; [intros ->; done | tauto]).
        -- intros [[Hne [Hx|[Hx|Hx]]]|[_ Hno]]; [tauto | done | tauto |].
           destruct Hno. right. by left.
    + intros Hacc. split; [by eapply accounted_unlike|].
      pose proof (accounted_length tale Hacc) as Hlen.
      rewrite Hl, length_app in Hlen. cbn [length] in Hlen.
      cbn [likes set_likes set_likedBy]. lia.
  - rewrite (likeTale_like db id tale user Hfound Hpublic Hout).
    rewrite bool_decide_eq_false_2 by done.
    exists (set_likedBy (likedBy tale ++ [_id user])
              (set_likes (likes tale + 1) tale)).
    split; [reflexivity|]. split; [done|]. split.
    + cbn [likedBy set_likedBy]. intros Hnd. split.
      * apply NoDup_app. split; [done|]. split; [|apply NoDup_singleton].
        intros x Hx ->%list_elem_of_singleton. done.
      * intros x. rewrite elem_of_app, list_elem_of_singleton. split.
        -- intros [Hx| ->]; [left | right; done].
           split; [intros ->; done | done].
        -- intros [[_ Hx]|[-> _]]; [by left | by right].
    + intros Hacc. split; [by apply accounted_like|].
      cbn [likes set_likes set_likedBy]. lia.
Qed.

(** X8. [likeTale] neither adds nor removes a document, touches no tale but
    the one addressed, and changes nothing of that tale but [likes] and
    [likedBy]; a response other than 200 means the collection is as it
    was. *)
Theorem likeTale_frame (db : Tales) (id : ObjectId) (user : User) :
  dom (likeTale id user db).1 = dom db
  ∧ (∀ other, other ≠ id -> (likeTale id user db).1 !! other = db !! other)
  ∧ ((∀ body, (likeTale id user db).2 ≠ Json 200 body) ->
     (likeTale id user db).1 = db)
  ∧ (∀ tale tale',
       db !! id = Some tale -> (likeTale id user db).1 !! id = Some tale' ->
       title tale' = title tale ∧ content tale' = content tale
       ∧ ageRange tale' = ageRange tale ∧ topic tale' = topic tale
       ∧ author tale' = author tale ∧ isPublic tale' = isPublic tale).
Proof.
  destruct (db !! id) as [tale|] eqn:Hfound.
  2: { rewrite (likeTale_notFound db id user Hfound).
       split; [done|]. split; [done|]. split; [done|]. by intros tale0 tale'. }
  destruct (isPublic tale) eqn:Hpublic.
  2: { rewrite (likeTale_private db id user tale Hfound Hpublic).
       split; [done|]. split; [done|]. split; [done|].
       intros tale0 tale' [= <-]. cbn [fst]. rewrite Hfound. intros [= <-].
       by repeat split. }
  destruct (likeTale_result db id tale user Hfound Hpublic)
    as (tale1 & -> & Hsame & _).
  cbn [fst snd]. split; [|split; [|split]].
  - apply dom_insert_lookup_L. by eexists.
  - intros other Hother. by rewrite lookup_insert_ne.
  - intros Hrefused. by destruct (Hrefused (LikeResult
      (negb (bool_decide (_id user ∈ likedBy tale))) (likes tale1))).
  - intros tale0 tale' [= <-]. rewrite lookup_insert_eq. intros [= <-].
    rewrite Hsame. by repeat split.
Qed.

Lemma likeTale_frame_witness :
  (∃ tale',
     (likeTale 7 {| _id := 5 |} sampleDb).1 !! 7%N = Some tale'
     ∧ likes tale' = 3 ∧ title tale' = title sampleTale
     ∧ author tale' = author sampleTale)
  ∧ (likeTale 7 {| _id := 5 |} sampleDb).1 !! 8%N = Some privateTale.
Proof.
  destruct (likeTale_frame sampleDb 7 {| _id := 5 |})
    as (_ & Hothers & _ & Hfields).
  split.
  - eexists. split; [reflexivity|]. split; [reflexivity|].
    destruct (Hfields sampleTale _ eq_refl eq_refl)
      as (Htitle & _ & _ & _ & Hauthor & _).
    split; [exact Htitle | exact Hauthor].
  - rewrite Hothers by discriminate. reflexivity.
Defined.

(** X9. On an existing public tale [checkLikeStatus] and [likeTale] agree:
    the toggle answers the opposite of the status reported before it, and,
    when [likedBy] holds no identity twice, the status reported after it is
    the liked-state the toggle answered. *)
Theorem checkLikeStatus_follows_likeTale (db : Tales) (id : ObjectId)
    (tale : Tale) (user : User) :
  db !! id = Some tale -> isPublic tale = true ->
  ∃ liked n,
    (checkLikeStatus id user db).2 = Json 200 (LikeStatus (negb liked))
    ∧ (likeTale id user db).2 = Json 200 (LikeResult liked n)
    ∧ (NoDup (likedBy tale) ->
       (checkLikeStatus id user (likeTale id user db).1).2
         = Json 200 (LikeStatus liked)).
Proof.
  intros Hfound Hpublic.
  destruct (likeTale_result db id tale user Hfound Hpublic)
    as (tale' & -> & _ & Hmembers & _).
  exists (negb (bool_decide (_id user ∈ likedBy tale))), (likes tale').
  cbn [fst snd]. unfold checkLikeStatus.
  rewrite Hfound, lookup_insert_eq, !includes_decide. cbn [snd].
  rewrite negb_involutive. split; [done|]. split; [done|].
  intros Hnd. destruct (Hmembers Hnd) as [_ Hiff]. do 2 f_equal.
  destruct (decide (_id user ∈ likedBy tale)) as [Hin|Hout].
  - rewrite (bool_decide_eq_true_2 _ Hin). cbn [negb].
    apply bool_decide_eq_false_2. rewrite Hiff. intros [[? _]|[_ ?]]; done.
  - rewrite (bool_decide_eq_false_2 _ Hout). cbn [negb].
    apply bool_decide_eq_true_2. rewrite Hiff. by right.
Qed.

Lemma checkLikeStatus_follows_likeTale_witness :
  sampleDb !! 7%N = Some sampleTale ∧ isPublic sampleTale = true
  ∧ NoDup (likedBy sampleTale)
  ∧ (checkLikeStatus 7 {| _id := 3 |} sampleDb).2 = Json 200 (LikeStatus true)
  ∧ (checkLikeStatus 7 {| _id := 3 |}
       (likeTale 7 {| _id := 3 |} sampleDb).1).2
    = Json 200 (LikeStatus false).
Proof.
  assert (Hnd : NoDup (likedBy sampleTale)) by by apply (bool_decide_unpack _).
  split; [reflexivity|]. split; [reflexivity|]. split; [exact Hnd|].
  split; [reflexivity|].
  destruct (checkLikeStatus_follows_likeTale sampleDb 7 sampleTale
              {| _id := 3 |} eq_refl eq_refl)
    as (liked & n & _ & Hlike & Hafter).
  rewrite (Hafter Hnd). injection Hlike as <- _. reflexivity.
Defined.

(** X10. On an existing public tale whose [likes] counts a [likedBy]
    without repetition, toggles by two different users commute: served in
    either order they leave the same collection up to the order of the
    entries of [likedBy]. *)
Theorem likeTale_commutes (db : Tales) (id : ObjectId) (tale : Tale)
    (u v : User) :
  db !! id = Some tale -> isPublic tale = true -> accounted tale ->
  _id u ≠ _id v ->
  ∃ uv vu,
    (likeTale id v (likeTale id u db).1).1 = <[id := uv]> db
    ∧ (likeTale id u (likeTale id v db).1).1 = <[id := vu]> db
    ∧ likes uv = likes vu
    ∧ likedBy uv ≡ₚ likedBy vu
    ∧ uv = set_likedBy (likedBy uv) vu.
Proof.
  intros Hfound Hpublic Hacc Hne.
  pose proof Hacc as [_ Hnd].
  destruct (likeTale_result db id tale u Hfound Hpublic)
    as (tu & -> & Hu & Hmu & Hau).
  destruct (likeTale_result db id tale v Hfound Hpublic)
    as (tv & -> & Hv & Hmv & Hav).
  destruct (Hmu Hnd) as [Hndu Hinu]. destruct (Hmv Hnd) as [Hndv Hinv].
  destruct (Hau Hacc) as [Haccu Hlu]. destruct (Hav Hacc) as [Haccv Hlv].
  cbn [fst].
  assert (Hpu : isPublic tu = true) by by rewrite Hu.
  assert (Hpv : isPublic tv = true) by by rewrite Hv.
  destruct (likeTale_result (<[id := tu]> db) id tu v
              (lookup_insert_eq _ _ _) Hpu) as (uv & -> & Huv & Hmuv & Hauv).
  destruct (likeTale_result (<[id := tv]> db) id tv u
              (lookup_insert_eq _ _ _) Hpv) as (vu & -> & Hvu & Hmvu & Havu).
  destruct (Hmuv Hndu) as [Hnduv Hinuv]. destruct (Hmvu Hndv) as [Hndvu Hinvu].
  destruct (Hauv Haccu) as [_ Hluv]. destruct (Havu Haccv) as [_ Hlvu].
  exists uv, vu. cbn [fst]. rewrite !insert_insert_eq.
  assert (Hvu1 : bool_decide (_id v ∈ likedBy tu)
                 = bool_decide (_id v ∈ likedBy tale)).
  { apply bool_decide_ext. pose proof (Hinu (_id v)). intuition congruence. }
  assert (Huv1 : bool_decide (_id u ∈ likedBy tv)
                 = bool_decide (_id u ∈ likedBy tale)).
  { apply bool_decide_ext. pose proof (Hinv (_id u)). intuition congruence. }
  assert (Hlikes : likes uv = likes vu).
  { rewrite Hluv, Hlvu, Hlu, Hlv, Hvu1, Huv1. lia. }
  split; [done|]. split; [done|]. split; [done|]. split.
  - apply NoDup_Permutation; [done | done |].
    intros x.
    pose proof (Hinuv x) as H1. pose proof (Hinvu x) as H2.
    pose proof (Hinu x) as H3. pose proof (Hinv x) as H4.
    pose proof (Hinu (_id v)) as H5. pose proof (Hinv (_id u)) as H6.
    clear -H1 H2 H3 H4 H5 H6 Hne.
    destruct (decide (x = _id u)) as [Hxu|Hxu];
      destruct (decide (x = _id v)) as [Hxv|Hxv];
      [congruence | | | ]; intuition congruence.
  - rewrite Huv, Hvu, Hu, Hv, Hlikes. reflexivity.
Qed.

Lemma likeTale_commutes_witness :
  sampleDb !! 7%N = Some sampleTale ∧ isPublic sampleTale = true
  ∧ accounted sampleTale
  ∧ likedBy <$> (likeTale 7 {| _id := 5 |}
                   (likeTale 7 {| _id := 2 |} sampleDb).1).1 !! 7%N
    = Some [3%N; 5%N]
  ∧ ∃ uv vu,
      (likeTale 7 {| _id := 5 |} (likeTale 7 {| _id := 2 |} sampleDb).1).1
        = <[7%N := uv]> sampleDb
      ∧ (likeTale 7 {| _id := 2 |} (likeTale 7 {| _id := 5 |} sampleDb).1).1
        = <[7%N := vu]> sampleDb
      ∧ likes uv = likes vu.
Proof.
  assert (Hacc : accounted sampleTale).
  { split; [reflexivity|]. by apply (bool_decide_unpack _). }
  split; [reflexivity|]. split; [reflexivity|]. split; [exact Hacc|].
  split; [reflexivity|].
  destruct (likeTale_commutes sampleDb 7 sampleTale {| _id := 2 |}
              {| _id := 5 |} eq_refl eq_refl Hacc)
    as (uv & vu & Huv & Hvu & Hlikes & _); [discriminate|].
  by exists uv, vu.
Defined.

(** ** Trimming *)

Section Trim.

Implicit Types (s : jsstring) (c : N).

Lemma trimStart_head s :
  trimStart s = [] ∨ ∃ c s', trimStart s = c :: s' ∧ isSpace c = false.
Proof.
  induction s as [|c s IH]; [by left|]. cbn [trimStart].
  destruct (isSpace c) eqn:Hc; [done|]. right. by exists c, s.
Qed.

Lemma trimStart_snoc s c :
  isSpace c = false -> trimStart (s ++ [c]) = trimStart s ++ [c].
Proof.
  intros Hc. induction s as [|x s IH]; cbn [app trimStart].
  - by rewrite Hc.
  - by destruct (isSpace x).
Qed.

Lemma trimEnd_cons c s :
  isSpace c = false -> trimEnd (c :: s) = c :: trimEnd s.
Proof.
  intros Hc. unfold trimEnd. cbn [rev].
  by rewrite trimStart_snoc, rev_app_distr.
Qed.

Lemma trimStart_idemp s : trimStart (trimStart s) = trimStart s.
Proof.
  destruct (trimStart_head s) as [-> | (c & s' & -> & Hc)]; [done|].
  cbn [trimStart]. by rewrite Hc.
Qed.

Lemma trimEnd_idemp s : trimEnd (trimEnd s) = trimEnd s.
Proof. unfold trimEnd. by rewrite rev_involutive, trimStart_idemp. Qed.

(** [trim] leaves no white space at either end: trimming again changes
    nothing. *)
Lemma trim_idemp s : trim (trim s) = trim s.
Proof.
  unfold trim at 1.
  assert (Hstart : trimStart (trim s) = trim s).
  { unfold trim. destruct (trimStart_head s) as [-> | (c & s' & -> & Hc)];
      [done|].
    rewrite trimEnd_cons by done. cbn [trimStart]. by rewrite Hc. }
  rewrite Hstart. unfold trim. apply trimEnd_idemp.
Qed.

End Trim.

(** ** Generating a tale, continued *)

Section Through.

Variable P : mstate -> Prop.

(** A match is only ever produced by the continuation. *)
Lemma starGreedy_through p st s k :
  ∀ n res,
    (∀ st' res', k st' = Some res' -> P res') ->
    starGreedy p st n s k = Some res -> P res.
Proof.
  induction s as [|c s IH]; intros n res Hk; cbn [starGreedy].
  - apply Hk.
  - destruct (p c); [|apply Hk].
    destruct (starGreedy p st (S n) s k) as [res'|] eqn:Hstar.
    + intros [= <-]. by eapply IH.
    + apply Hk.
Qed.

Lemma starLazy_through p st s k :
  ∀ n res,
    (∀ st' res', k st' = Some res' -> P res') ->
    starLazy p st n s k = Some res -> P res.
Proof.
  induction s as [|c s IH]; intros n res Hk; cbn [starLazy].
  - destruct (k _) as [res'|] eqn:Hkst; [|done].
    intros [= <-]. by eapply Hk.
  - destruct (k _) as [res'|] eqn:Hkst.
    + intros [= <-]. by eapply Hk.
    + destruct (p c); [|done]. by apply IH.
Qed.

Lemma exec_through r :
  ∀ st k res,
    (∀ st' res', k st' = Some res' -> P res') ->
    exec r st k = Some res -> P res.
Proof.
  induction r as [| |c|p|p|r IH|r1 IH1 r2 IH2|r1 IH1 r2 IH2];
    intros st k res Hk; cbn [exec].
  - destruct (bool_decide _); [apply Hk | done].
  - destruct (rest st); [apply Hk | done].
  - destruct (rest st) as [|c' s]; [done|].
    destruct (c =? c')%N; [apply Hk | done].
  - by apply starGreedy_through.
  - by apply starLazy_through.
  - apply IH. intros st' res'. apply Hk.
  - destruct (exec r1 st k) as [res'|] eqn:Hr1.
    + intros [= <-]. by eapply IH1.
    + by apply IH2.
  - apply IH1. intros st' res'. by apply IH2.
Qed.

End Through.

(** Once the group has matched, the end of the line keeps its capture. *)
Lemma group_then_lineEnd g st res :
  exec (Seq (Group g) (Alt (Chr 10) Eol)) st Some = Some res ->
  is_Some (group1 res).
Proof.
  rewrite exec_Seq, exec_Group.
  apply (exec_through (fun res => is_Some (group1 res))). intros st' res'. rewrite exec_lineEnd. cbn [rest].
  destruct (rest st') as [|c s]; [by intros [= <-]|].
  destruct (10 =? c)%N; [by intros [= <-] | done].
Qed.

Lemma headingTitle_captures st res :
  exec headingTitle st Some = Some res -> is_Some (group1 res).
Proof.
  unfold headingTitle. rewrite exec_Seq. apply (exec_through (fun res => is_Some (group1 res))).
  intros st1 res1. rewrite exec_Seq. apply (exec_through (fun res => is_Some (group1 res))).
  intros st2 res2. rewrite exec_Seq. apply (exec_through (fun res => is_Some (group1 res))).
  intros st3 res3. apply group_then_lineEnd.
Qed.

Lemma firstLineTitle_captures st res :
  exec firstLineTitle st Some = Some res -> is_Some (group1 res).
Proof.
  unfold firstLineTitle. rewrite exec_Seq. apply (exec_through (fun res => is_Some (group1 res))).
  intros st1 res1. apply group_then_lineEnd.
Qed.

(** An expression that starts with [^] matches at index 0 or not at all. *)
Lemma anchored_match r text m :
  jsmatch text (Seq Bol r) = Some m ->
  ∃ st,
    exec (Seq Bol r) {| pos := 0; rest := text; group1 := None |} Some
      = Some st
    ∧ m = {| index := 0; matched := take (pos st) text;
             captured := group1 st |}.
Proof.
  unfold jsmatch.
  destruct (exec (Seq Bol r) {| pos := 0; rest := text; group1 := None |} Some)
    as [st|] eqn:Hexec.
  - rewrite (search_hit _ _ _ _ Hexec), Nat.sub_0_r. intros [= <-].
    by exists st.
  - destruct text as [|c s]; cbn [search]; rewrite Hexec; [done|].
    by rewrite search_Bol_later.
Qed.

Lemma anchored_miss r text :
  exec (Seq Bol r) {| pos := 0; rest := text; group1 := None |} Some = None ->
  jsmatch text (Seq Bol r) = None.
Proof.
  intros Hexec. unfold jsmatch.
  destruct text as [|c s]; cbn [search]; rewrite Hexec; [done|].
  apply search_Bol_later.
Qed.

Lemma replaceFirstWithEmpty_take n text :
  replaceFirstWithEmpty text (take n text) = drop n text.
Proof.
  rewrite <- (take_drop n text) at 1. apply replaceFirstWithEmpty_prefix.
Qed.

(** The extraction never throws: it falls back to the default title with
    the text untouched, or it takes the capture as title and what follows
    the match as content. *)
Lemma extractTale_total text :
  ∃ title content,
    extractTale text = Some (title, content)
    ∧ trim title = title
    ∧ ((title = js "Untitled Tale" ∧ content = text)
       ∨ ∃ n, content = trim (drop n text)).
Proof.
  unfold extractTale.
  destruct (jsmatch text headingTitle) as [m|] eqn:Hheading.
  - apply anchored_match in Hheading as (st & Hexec & ->).
    apply headingTitle_captures in Hexec as [g Hg].
    cbn [captured matched]. rewrite Hg, replaceFirstWithEmpty_take.
    eexists _, _. split; [done|]. split; [apply trim_idemp|].
    right. by eexists.
  - destruct (jsmatch text firstLineTitle) as [m|] eqn:Hfirst.
    + apply anchored_match in Hfirst as (st & Hexec & ->).
      apply firstLineTitle_captures in Hexec as [g Hg].
      cbn [captured matched]. rewrite Hg, replaceFirstWithEmpty_take.
      eexists _, _. split; [done|]. split; [apply trim_idemp|].
      right. by eexists.
    + eexists _, _. split; [done|]. split; [reflexivity|]. by left.
Qed.

(** X11. Without an [ageRange] or without a [topic], an empty string
    counting as none, [generateTale] answers 400 and does not call the
    generator. *)
Theorem generateTale_requires (body : GenerateBody)
    (generator : MessageRequest -> ApiResult) :
  truthy (g_ageRange body) = false ∨ truthy (g_topic body) = false ->
  run (generateTale body) generator
    = (Json 400 (Message "Age range and topic are required"), 0%nat).
Proof.
  unfold generateTale. intros [-> | ->]; [done|].
  by rewrite orb_true_r.
Qed.

Lemma generateTale_requires_witness :
  run (generateTale {| g_ageRange := Some (js "5-7"); g_topic := Some [];
                       g_mainCharacter := None; g_setting := None;
                       g_additionalDetails := None |})
      (fun _ => ApiMessage [headedText])
    = (Json 400 (Message "Age range and topic are required"), 0%nat).
Proof.
  apply generateTale_requires. right. reflexivity.
Defined.

(** X12. With an [ageRange] and a [topic], whenever the generator returns a
    message with a text, [generateTale] answers 200: the extraction never
    throws.  The answer carries the request's [ageRange] and [topic]; its
    title has no white space at either end; and its content is the generated
    text untouched under the title "Untitled Tale", or else what is left of
    the text after a leading part is cut off, trimmed.  A message without
    content is answered 500. *)
Theorem generateTale_answers_text (body : GenerateBody)
    (generator : MessageRequest -> ApiResult) :
  truthy (g_ageRange body) = true -> truthy (g_topic body) = true ->
  (∀ text more,
     generator (generateRequest body) = ApiMessage (text :: more) ->
     ∃ title content,
       run (generateTale body) generator
         = (Json 200 (Generated title content
                                (default [] (g_ageRange body))
                                (default [] (g_topic body))), 1%nat)
       ∧ trim title = title
       ∧ ((title = js "Untitled Tale" ∧ content = text)
          ∨ ∃ n, content = trim (drop n text)))
  ∧ (generator (generateRequest body) = ApiMessage [] ->
     ∃ error,
       run (generateTale body) generator
         = (Json 500 (Failure "Error generating tale" error), 1%nat)).
Proof.
  intros HageRange Htopic. unfold generateTale.
  rewrite HageRange, Htopic. cbn [negb orb run]. split.
  - intros text more ->.
    destruct (extractTale_total text)
      as (title & content & -> & Htitle & Hshape).
    by exists title, content.
  - intros ->. by eexists.
Qed.

Lemma generateTale_answers_text_witness :
  ∃ title content,
    run (generateTale storyBody) (fun _ => ApiMessage [bareHeadingText])
      = (Json 200 (Generated title content (js "5-7") (js "animals")), 1%nat).
Proof.
  destruct (proj1 (generateTale_answers_text storyBody
                     (fun _ => ApiMessage [bareHeadingText])
                     eq_refl eq_refl) bareHeadingText [] eq_refl)
    as (title & content & Hrun & _).
  by exists title, content.
Defined.

(** X13. When the generated text does not start with [#] and its first line
    holds a carriage return, a line separator or a paragraph separator
    before any line feed, neither expression matches: the title is
    "Untitled Tale" and the content is the whole text, not trimmed. *)
Theorem extractTale_untitled (line rest : jsstring) (c : N) :
  forallb isDot line = true ->
  isLineTerminator c = true -> c ≠ 10%N ->
  match line with first :: _ => first ≠ 35%N | [] => True end ->
  extractTale (line ++ c :: rest)
    = Some (js "Untitled Tale", line ++ c :: rest).
Proof.
  intros Hline Hc Hlf Hfirst. unfold extractTale.
  rewrite no_heading.
  2: { destruct line as [|first line']; [|done].
       cbn [app]. intros ->. discriminate Hc. }
  assert (Hexec :
    exec (Seq Bol (Seq (Group (StarLazy isDot)) (Alt (Chr 10) Eol)))
      {| pos := 0; rest := line ++ c :: rest; group1 := None |} Some = None).
  { rewrite exec_Seq, exec_Bol, exec_Seq, exec_Group, exec_StarLazy by done.
    cbn [pos Regex.rest].
    assert (Hk : ∀ m c' s, c' ≠ 10%N ->
      (fun st' : mstate =>
         exec (Alt (Chr 10) Eol)
           {| pos := pos st'; rest := Regex.rest st';
              group1 := Some (take (pos st' - 0) (line ++ c :: rest)) |} Some)
        (moveTo {| pos := 0; rest := line ++ c :: rest; group1 := None |}
                m (c' :: s)) = None).
    { intros m c' s Hc'. rewrite exec_lineEnd. cbn [Regex.rest moveTo].
      destruct (N.eqb_spec 10 c'); [congruence | done]. }
    rewrite starLazy_line; [apply Hk; done | exact Hk | done |].
    unfold isDot. by rewrite Hc. }
  apply anchored_miss in Hexec. fold firstLineTitle in Hexec.
  by rewrite Hexec.
Qed.

Lemma extractTale_untitled_witness :
  extractTale crlfText = Some (js "Untitled Tale", crlfText).
Proof.
  apply (extractTale_untitled (js "Title") (10%N :: js "Body") 13%N);
    [reflexivity | reflexivity | discriminate | discriminate].
Defined.

(** ** Listings *)

Section Listings.

Variables (users : Users) (createdAt : ObjectId -> N).

#[local] Instance newestFirst_transitive :
  Transitive (newestFirst createdAt).
Proof. intros x y z. unfold newestFirst. lia. Qed.

#[local] Instance newestFirst_total : Total (newestFirst createdAt).
Proof. intros x y. unfold newestFirst. lia. Qed.

Lemma find_elem selects (db : Tales) id tale :
  (id, tale) ∈ find selects db <-> db !! id = Some tale ∧ selects tale = true.
Proof.
  unfold find. rewrite list_elem_of_filter, elem_of_map_to_list. cbn [snd].
  tauto.
Qed.

Lemma find_NoDup selects (db : Tales) : NoDup (find selects db).*1.
Proof.
  unfold find. eapply sublist_NoDup; [apply (NoDup_fst_map_to_list db)|].
  apply fmap_sublist, sublist_filter.
Qed.

Lemma find_all (db : Tales) : find (fun _ => true) db = map_to_list db.
Proof.
  unfold find. induction (map_to_list db) as [|entry l IH]; [done|].
  by rewrite filter_cons_True, IH.
Qed.

Lemma sortNewestFirst_elem l x : x ∈ sortNewestFirst createdAt l <-> x ∈ l.
Proof. unfold sortNewestFirst. by rewrite merge_sort_Permutation. Qed.

Lemma sortNewestFirst_NoDup l :
  NoDup l.*1 -> NoDup (sortNewestFirst createdAt l).*1.
Proof. unfold sortNewestFirst. by rewrite merge_sort_Permutation. Qed.

Lemma sortNewestFirst_sorted l :
  StronglySorted (newestFirst createdAt) (sortNewestFirst createdAt l).
Proof. apply StronglySorted_merge_sort; apply _. Qed.

Lemma populate_eq p id tale :
  p = populate users (id, tale)
  <-> p_id p = id ∧ p_tale p = tale
      ∧ p_author p = (fun name => (author tale, name)) <$> users !! author tale.
Proof.
  split; [by intros ->|]. destruct p as [i t a]. cbn.
  by intros (-> & -> & ->).
Qed.

Lemma getPublicTales_elem (db : Tales) p :
  p ∈ tales (getPublicTales users createdAt db)
  <-> db !! p_id p = Some (p_tale p) ∧ isPublic (p_tale p) = true
      ∧ p_author p = (fun name => (author (p_tale p), name))
                       <$> users !! author (p_tale p).
Proof.
  unfold getPublicTales. cbn [tales]. rewrite list_elem_of_fmap. split.
  - intros ([id tale] & Hp & Hin).
    apply sortNewestFirst_elem, find_elem in Hin as [Hfound Hpublic].
    apply populate_eq in Hp as (-> & -> & Hauthor). by rewrite Hauthor.
  - intros (Hfound & Hpublic & Hauthor).
    exists (p_id p, p_tale p). split; [by apply populate_eq|].
    by apply sortNewestFirst_elem, find_elem.
Qed.

(** X14. [getPublicTales] lists the public tales and only them, each once,
    newest first, with [count] the number of tales listed; the author of
    each is populated with the user's name, or is [null] when no user has
    the author's [_id]. *)
Theorem getPublicTales_lists (db : Tales) :
  count (getPublicTales users createdAt db)
    = length (tales (getPublicTales users createdAt db))
  ∧ (∀ p, p ∈ tales (getPublicTales users createdAt db)
          <-> db !! p_id p = Some (p_tale p) ∧ isPublic (p_tale p) = true
              ∧ p_author p = (fun name => (author (p_tale p), name))
                               <$> users !! author (p_tale p))
  ∧ NoDup (p_id <$> tales (getPublicTales users createdAt db))
  ∧ StronglySorted
      (fun p q => (createdAt (p_id q) <= createdAt (p_id p))%N)
      (tales (getPublicTales users createdAt db)).
Proof.
  split; [done|]. split; [apply getPublicTales_elem|].
  unfold getPublicTales. cbn [tales]. split.
  - rewrite <- list_fmap_compose.
    apply sortNewestFirst_NoDup, find_NoDup.
  - eapply StronglySorted_fmap; [|apply sortNewestFirst_sorted].
    by intros x y.
Qed.

(** X15. [getUserTales] lists the tales whose author is the requester and
    only them, private ones included, each once, newest first, with [count]
    the number of tales listed. *)
Theorem getUserTales_lists (user : User) (db : Tales) :
  count (getUserTales createdAt user db)
    = length (tales (getUserTales createdAt user db))
  ∧ (∀ id tale, (id, tale) ∈ tales (getUserTales createdAt user db)
                <-> db !! id = Some tale ∧ author tale = _id user)
  ∧ NoDup (tales (getUserTales createdAt user db)).*1
  ∧ StronglySorted (fun x y => (createdAt y.1 <= createdAt x.1)%N)
                   (tales (getUserTales createdAt user db)).
Proof.
  split; [done|]. unfold getUserTales. cbn [tales]. split; [|split].
  - intros id tale. rewrite sortNewestFirst_elem, find_elem.
    by rewrite N.eqb_eq.
  - apply sortNewestFirst_NoDup, find_NoDup.
  - apply sortNewestFirst_sorted.
Qed.

(** X16. [getTales] lists every tale of the collection once, public or
    not, with [count] the size of the collection. *)
Theorem getTales_lists (db : Tales) :
  count (getTales users db) = size db
  ∧ (∀ p, p ∈ tales (getTales users db)
          <-> db !! p_id p = Some (p_tale p)
              ∧ p_author p = (fun name => (author (p_tale p), name))
                               <$> users !! author (p_tale p))
  ∧ NoDup (p_id <$> tales (getTales users db)).
Proof.
  unfold getTales. cbn [count tales]. rewrite find_all. split; [|split].
  - by rewrite length_fmap, length_map_to_list.
  - intros p. rewrite list_elem_of_fmap. split.
    + intros ([id tale] & Hp & Hin). apply elem_of_map_to_list in Hin.
      apply populate_eq in Hp as (-> & -> & Hauthor). by rewrite Hauthor.
    + intros [Hfound Hauthor]. exists (p_id p, p_tale p).
      split; [by apply populate_eq | by apply elem_of_map_to_list].
  - rewrite <- list_fmap_compose. apply NoDup_fst_map_to_list.
Qed.

End Listings.

(** ** From a private draft to a liked public tale *)

Lemma likeTale_first (db : Tales) id tale user :
  db !! id = Some tale -> isPublic tale = true -> likedBy tale = [] ->
  likeTale id user db
    = (<[id := set_likedBy [_id user] (set_likes (likes tale + 1) tale)]> db,
       Json 200 (LikeResult true (likes tale + 1))).
Proof.
  intros Hfound Hpublic Hnone.
  rewrite (likeTale_like db id tale user Hfound Hpublic)
    by (rewrite Hnone; apply not_elem_of_nil).
  by rewrite Hnone.
Qed.

Lemma likeTale_only (db : Tales) id tale user :
  db !! id = Some tale -> isPublic tale = true ->
  likedBy tale = [_id user] ->
  likeTale id user db
    = (<[id := set_likedBy [] (set_likes (Z.max 0 (likes tale - 1)) tale)]> db,
       Json 200 (LikeResult false (Z.max 0 (likes tale - 1)))).
Proof.
  intros Hfound Hpublic Hone.
  by rewrite (likeTale_unlike db id tale user Hfound Hpublic [] [])
    by (done || apply not_elem_of_nil).
Qed.

(** X17. A tale created without [isPublic] is closed to another user: 403
    on reading it, 403 on liking it, and it is not in the public listing.
    Once its author has updated it with [isPublic: true], the other user
    reads it and finds it in the public listing; that user's first toggle
    answers liked with 1 like, the second not liked with 0, and
    [checkLikeStatus] reports the same after each.  The two reads are those
    of an author who is a user of the [users] collection; without a user
    document for the author they end in the error handler. *)
Theorem draft_published_liked (newId : ObjectId) (A B : User) (body : Body)
    (db : Tales) (users : Users) (createdAt : ObjectId -> N) t c a p :
  b_title body = Some t -> b_content body = Some c ->
  b_ageRange body = Some a -> b_topic body = Some p ->
  trim t ≠ [] -> (length (trim t) <= 100)%nat -> trim c ≠ [] ->
  a ∈ ageRanges -> p ∈ topics ->
  default false (b_isPublic body) = false -> _id B ≠ _id A ->
  let db1 := (createTale newId A body db).1 in
  let db2 := (updateTale newId A publishBody db1).1 in
  let db3 := (likeTale newId B db2).1 in
  let db4 := (likeTale newId B db3).1 in
  (getTaleById users newId (Some B) db1).2
    = match users !! _id A with
      | Some _ => Json 403 (Message "Not authorized to access this tale")
      | None => Next TypeError
      end
  ∧ (likeTale newId B db1).2 = Json 403 (Message "Cannot like a private tale")
  ∧ (newId ∉ p_id <$> tales (getPublicTales users createdAt db1))
  ∧ (getTaleById users newId (Some B) db2).2
    = match users !! _id A with
      | Some _ =>
          Json 200 (TaleDoc newId
                      (mkTale (trim t) (trim c) a p (_id A) true 0 []))
      | None => Next TypeError
      end
  ∧ newId ∈ p_id <$> tales (getPublicTales users createdAt db2)
  ∧ (likeTale newId B db2).2 = Json 200 (LikeResult true 1)
  ∧ (checkLikeStatus newId B db3).2 = Json 200 (LikeStatus true)
  ∧ (likeTale newId B db3).2 = Json 200 (LikeResult false 0)
  ∧ (checkLikeStatus newId B db4).2 = Json 200 (LikeStatus false).
Proof.
  intros Ht Hc Ha Hp Htrim Hlen Hcontent HageRange Htopic Hprivate Hother.
  set (draft := mkTale (trim t) (trim c) a p (_id A) false 0 []).
  set (public := mkTale (trim t) (trim c) a p (_id A) true 0 []).
  assert (Hdb1 : (createTale newId A body db).1 = <[newId := draft]> db).
  { unfold createTale.
    rewrite (TaleCreate_valid _ _ _ _ (_id A) (default false (b_isPublic body))
               t c a p) by done.
    by rewrite Hprivate. }
  cbv zeta. rewrite Hdb1.
  assert (Hdb2 : (updateTale newId A publishBody (<[newId := draft]> db)).1
                 = <[newId := public]> db).
  { rewrite (updateTale_by_author _ newId A publishBody draft)
      by (done || apply lookup_insert_eq).
    cbn [updateErrors fst]. by rewrite insert_insert_eq. }
  rewrite Hdb2.
  assert (Hlike1 : likeTale newId B (<[newId := public]> db)
    = (<[newId := set_likedBy [_id B] (set_likes 1 public)]> db,
       Json 200 (LikeResult true 1))).
  { rewrite (likeTale_first _ newId public B)
      by (done || apply lookup_insert_eq).
    by rewrite insert_insert_eq. }
  rewrite Hlike1. cbn [fst snd].
  assert (Hlike2 :
    likeTale newId B
      (<[newId := set_likedBy [_id B] (set_likes 1 public)]> db)
    = (<[newId := set_likedBy [] (set_likes 0 public)]> db,
       Json 200 (LikeResult false 0))).
  { rewrite (likeTale_only _ newId (set_likedBy [_id B] (set_likes 1 public)) B)
      by (done || apply lookup_insert_eq).
    by rewrite insert_insert_eq. }
  rewrite Hlike2. cbn [fst snd].
  split.
  { unfold getTaleById. rewrite lookup_insert_eq.
    cbn [populate p_author fst snd isPublic draft author].
    destruct (users !! _id A) as [name|];
      cbn [fmap option_fmap option_map]; [|done].
    by rewrite bool_decide_eq_false_2. }
  split.
  { by rewrite (likeTale_private _ newId B draft)
      by (done || apply lookup_insert_eq). }
  split.
  { intros (q & Hq & Hin)%list_elem_of_fmap.
    apply getPublicTales_elem in Hin as (Hfound & Hpublic & _).
    rewrite <- Hq, lookup_insert_eq in Hfound.
    injection Hfound as Hfound. by rewrite <- Hfound in Hpublic. }
  split.
  { unfold getTaleById. rewrite lookup_insert_eq.
    cbn [populate p_author fst snd isPublic public author].
    by destruct (users !! _id A) as [name|]. }
  split.
  { apply list_elem_of_fmap.
    exists (populate users (newId, public)). split; [done|].
    apply getPublicTales_elem. cbn [populate p_id p_tale p_author fst snd].
    by rewrite lookup_insert_eq. }
  split; [done|]. split.
  { unfold checkLikeStatus. rewrite lookup_insert_eq.
    cbn [likedBy set_likedBy includes existsb snd].
    by rewrite N.eqb_refl. }
  split; [done|].
  unfold checkLikeStatus. by rewrite lookup_insert_eq.
Qed.

Lemma draft_published_liked_witness :
  (likeTale 9 {| _id := 2 |}
     (updateTale 9 {| _id := 1 |} publishBody
        (createTale 9 {| _id := 1 |} draftBody sampleDb).1).1).2
  = Json 200 (LikeResult true 1).
Proof.
  refine (proj1 (proj2 (proj2 (proj2 (proj2 (proj2
    (draft_published_liked 9 {| _id := 1 |} {| _id := 2 |} draftBody sampleDb
       sampleUsers sampleCreatedAt
       (js " The Shy Owl ") (js "Deep in the wood.") (js "2-4") (js "nature")
       eq_refl eq_refl eq_refl eq_refl _ _ _ _ _ eq_refl _))))))).
  - discriminate.
  - vm_compute. lia.
  - discriminate.
  - by apply (bool_decide_unpack _).
  - by apply (bool_decide_unpack _).
  - discriminate.
Defined.

(** ** What is stored is trimmed *)

Lemma createTale_trimmed newId user body db :
  map_Forall (fun _ t => trim (title t) = title t
                         ∧ trim (content t) = content t) db ->
  map_Forall (fun _ t => trim (title t) = title t
                         ∧ trim (content t) = content t)
             (createTale newId user body db).1.
Proof.
  intros Hdb. unfold createTale, TaleCreate.
  destruct (validateTale _ _ _ _); [|done]. cbn [fst].
  apply map_Forall_insert_2; [|done]. cbn [title content].
  destruct (b_title body) as [t|], (b_content body) as [c|];
    cbn [fmap option_fmap option_map default];
    change (applySetters titlePath ?x) with (trim x);
    change (applySetters contentPath ?x) with (trim x);
    unfold Datatypes.id; by rewrite ?trim_idemp.
Qed.

Lemma updateTale_trimmed id user body db :
  map_Forall (fun _ t => trim (title t) = title t
                         ∧ trim (content t) = content t) db ->
  map_Forall (fun _ t => trim (title t) = title t
                         ∧ trim (content t) = content t)
             (updateTale id user body db).1.
Proof.
  intros Hdb. unfold updateTale.
  destruct (db !! id) as [tale|] eqn:Hfound; [|done].
  destruct (negb _); [done|].
  destruct (updateErrors body); [|done]. cbn [fst].
  apply map_Forall_insert_2; [|done].
  destruct (Hdb id tale Hfound) as [Htitle Hcontent].
  unfold applyUpdate. cbn [title content].
  destruct (b_title body) as [t|], (b_content body) as [c|];
    cbn [fmap option_fmap option_map default];
    change (applySetters titlePath ?x) with (trim x);
    change (applySetters contentPath ?x) with (trim x);
    unfold Datatypes.id; by rewrite ?trim_idemp.
Qed.

Lemma likeTale_trimmed id user db :
  map_Forall (fun _ t => trim (title t) = title t
                         ∧ trim (content t) = content t) db ->
  map_Forall (fun _ t => trim (title t) = title t
                         ∧ trim (content t) = content t)
             (likeTale id user db).1.
Proof.
  intros Hdb. unfold likeTale.
  destruct (db !! id) as [tale|] eqn:Hfound; [|done].
  destruct (negb _); [done|].
  destruct (_ =? -1); cbn [fst];
    (apply map_Forall_insert_2; [|done]); by apply (Hdb id tale).
Qed.

Lemma deleteTale_trimmed id user db :
  map_Forall (fun _ t => trim (title t) = title t
                         ∧ trim (content t) = content t) db ->
  map_Forall (fun _ t => trim (title t) = title t
                         ∧ trim (content t) = content t)
             (deleteTale id user db).1.
Proof.
  intros Hdb. unfold deleteTale.
  destruct (db !! id) as [tale|]; [|done].
  destruct (negb _); [done|]. by apply map_Forall_delete.
Qed.

(** X18. The [title] and the [content] of every tale in a collection built
    by [createTale], [updateTale], [deleteTale] and [likeTale], with any
    bodies, are stored trimmed: trimming them again changes nothing. *)
Theorem stored_tales_trimmed (db : Tales) :
  reachable (fun _ => True) db ->
  ∀ id tale, db !! id = Some tale ->
    trim (title tale) = title tale ∧ trim (content tale) = content tale.
Proof.
  intros Hreach.
  assert (Hall : map_Forall (fun _ t => trim (title t) = title t
                                        ∧ trim (content t) = content t) db).
  { induction Hreach as [|db newId user body _ IH _|db id user body _ IH _
                         |db id user _ IH|db id user _ IH].
    - apply map_Forall_empty.
    - by apply createTale_trimmed.
    - by apply updateTale_trimmed.
    - by apply deleteTale_trimmed.
    - by apply likeTale_trimmed. }
  intros id tale Hfound. exact (Hall id tale Hfound).
Qed.

Lemma stored_tales_trimmed_witness :
  reachable (fun _ => True) (updateTale 7 {| _id := 1 |} titleBody foxDb).1
  ∧ (∃ tale,
       (updateTale 7 {| _id := 1 |} titleBody foxDb).1 !! 7%N = Some tale
       ∧ title tale = js "The Clever Fox"
       ∧ trim (title tale) = title tale).
Proof.
  assert (Hreach : reachable (fun _ => True)
                     (updateTale 7 {| _id := 1 |} titleBody foxDb).1).
  { apply reach_update; [|done].
    apply reach_create; [apply reach_empty | reflexivity]. }
  split; [exact Hreach|].
  eexists. split; [reflexivity|]. split; [reflexivity|].
  exact (proj1 (stored_tales_trimmed _ Hreach 7%N _ eq_refl)).
Defined.
